(** * Verification of the conversational-turn handler of [day1/main.py]

    The development embeds the session store ([chat_histories],
    [append_to_history], [get_chat_history]), the response chunker
    ([chunk_text]) and the turn orchestrator ([agent_chat]) of
    [src/day1/main.py] and proves the properties the specification states
    about them.

    Python values are modelled as follows.
    - [str] is a sequence of Unicode code points: [list N].  [len], slicing
      and [str.strip] count code points, which is what the chunker and the
      store depend on.
    - [bytes] is [list Byte.byte].
    - the module-level dict [chat_histories] is a [gmap] from session
      identifiers to lists of turns.
    - the three external collaborators (AssemblyAI, Gemini, Murf) are the
      operations of a type class over an abstract world state; every theorem
      about the handler holds for every implementation of that class. *)

From Stdlib Require Import NArith Ascii String Lia.
From stdpp Require Import base option list gmap.

Open Scope N_scope.
Open Scope nat_scope.
Open Scope list_scope.

(** ** Text *)

(** A Python [str]: its code points, in order. *)
Abbreviation str := (list N).

(** A Python [bytes] object. *)
Abbreviation bytes := (list Byte.byte).

(** A source literal that only has ASCII characters. *)
Definition lit (s : string) : str :=
  map N_of_ascii (list_ascii_of_string s).

(** U+2019, the apostrophe that the fixed replies of [agent_chat] use. *)
Definition rsquo : N := 8217%N.

(** [str.isspace] on one code point, as CPython's [_PyUnicode_IsWhitespace]
    lists them: this is the set [str.strip()] removes. *)
Definition isspace (c : N) : bool :=
  ((9 <=? c) && (c <=? 13) || (28 <=? c) && (c <=? 32)
   || (c =? 133) || (c =? 160) || (c =? 5760)
   || (8192 <=? c) && (c <=? 8202)
   || (c =? 8232) || (c =? 8233) || (c =? 8239) || (c =? 8287)
   || (c =? 12288))%N.

(** [s.lstrip()] *)
Fixpoint lstrip (s : str) : str :=
  match s with
  | c :: s' => if isspace c then lstrip s' else s
  | [] => []
  end.

(** [s.rstrip()] *)
Definition rstrip (s : str) : str := reverse (lstrip (reverse s)).

(** [s.strip()] *)
Definition strip (s : str) : str := rstrip (lstrip s).

(** [t] is [s] without its leading and trailing whitespace: [s] is [t]
    between two runs of whitespace, and [t] neither starts nor ends with a
    whitespace character. *)
Definition stripped_of (s t : str) : Prop :=
  exists l r,
    s = l ++ t ++ r
    /\ Forall (fun c => isspace c = true) l
    /\ Forall (fun c => isspace c = true) r
    /\ (forall c, head t = Some c -> isspace c = false)
    /\ (forall c, last t = Some c -> isspace c = false).

(** [s.startswith(p)] *)
Fixpoint startswith (s p : str) : bool :=
  match p, s with
  | [], _ => true
  | c :: p', d :: s' => (c =? d)%N && startswith s' p'
  | _ :: _, [] => false
  end.

(** [sep.join(parts)] *)
Fixpoint join (sep : str) (parts : list str) : str :=
  match parts with
  | [] => []
  | [p] => p
  | p :: rest => p ++ sep ++ join sep rest
  end.

(** [text[i:j]] for [0 <= i <= j]; Python clamps both ends to [len(text)]. *)
Definition slice {A} (text : list A) (i j : nat) : list A :=
  take (j - i) (drop i text).

(** [range(0, stop, step)] for a positive [step]: CPython computes its length
    as [(stop - 1) // step + 1] when [0 < stop] and [0] otherwise. *)
Definition range_len (stop step : nat) : nat :=
  match stop with
  | 0 => 0
  | S m => m / step + 1
  end.

Definition range (stop step : nat) : list nat :=
  map (fun k => k * step) (seq 0 (range_len stop step)).

(** ** Response chunker (main.py, lines 271-272)

    [[
    def chunk_text(text, max_len=3000):
        return [text[i:i+max_len] for i in range(0, len(text), max_len)]
    ]]
    [max_len] ranges over the positive integers: [range] raises [ValueError]
    on a zero step, and the handler only ever uses the default. *)
Definition chunk_text (text : str) (max_len : positive) : list str :=
  let n := Pos.to_nat max_len in
  map (fun i => slice text i (i + n)) (range (length text) n).

(** The default value of [max_len]. *)
Definition MAX_LEN : positive := 3000%positive.


(** ** Session store (main.py, lines 12-22) *)

(** One entry of a session's history: the dict
    [{"role": role, "content": content}]. *)
Record Turn := mkTurn { role : str; content : str }.

(** The module-level dict [chat_histories]. *)
Abbreviation Store := (gmap str (list Turn)).

(** [chat_histories.get(session_id, [])] *)
Definition get_chat_history (chat_histories : Store) (session_id : str)
  : list Turn :=
  default [] (chat_histories !! session_id).

(** [append_to_history]: the key is created with an empty list when absent,
    then the turn, its content stripped, is appended to the list. *)
Definition append_to_history (chat_histories : Store)
    (session_id role content : str) : Store :=
  let chat_histories :=
    match chat_histories !! session_id with
    | Some _ => chat_histories
    | None => <[session_id := []]> chat_histories
    end in
  <[session_id :=
      get_chat_history chat_histories session_id
        ++ [mkTurn role (strip content)]]> chat_histories.

(** A sequence of [append_to_history] calls, oldest first, each given as
    (session, role, content). *)
Definition appends (chat_histories : Store) (ops : list (str * str * str))
  : Store :=
  foldl (fun h op => append_to_history h op.1.1 op.1.2 op.2)
        chat_histories ops.

(** The turns a sequence of calls adds to one session, oldest first. *)
Definition turns_of (session_id : str) (ops : list (str * str * str))
  : list Turn :=
  map (fun op => mkTurn op.1.2 (strip op.2))
      (filter (fun op => op.1.1 = session_id) ops).

(** ** Exceptions and the values the handler reads *)

(** The exceptions the handler can meet: all are subclasses of [Exception].
    [CollaboratorError] stands for whatever a request parser or an external
    service raises. *)
Inductive exn :=
  | AttributeError
  | IndexError
  | CollaboratorError (detail : str).

(** The outcome of evaluating a Python expression. *)
Inductive result (A : Type) :=
  | Ok (a : A)
  | Raise (e : exn).
Arguments Ok {A} a.
Arguments Raise {A} e.

(** What reading an attribute with [getattr(obj, name, default)] can meet:
    a value, no such attribute (the default is used), or a property that
    raises something other than [AttributeError]. *)
Inductive attr (A : Type) :=
  | Present (a : A)
  | Missing
  | Raising (e : exn).
Arguments Present {A} a.
Arguments Missing {A}.
Arguments Raising {A} e.

(** A value of the multipart form: a plain string field, or an [UploadFile]
    (the only one with a [filename] attribute) whose [read()] yields its
    bytes or raises. *)
Inductive form_value :=
  | FormStr (s : str)
  | FormUpload (read : result bytes).

(** A decoded JSON document. *)
#[local] Set Warnings "-register-all".
Inductive json :=
  | JNull
  | JBool (b : bool)
  | JNumber (n : Z)
  | JString (s : str)
  | JArray (items : list json)
  | JObject (members : list (str * json)).

(** [d.get(key)] on the dict decoded from a JSON object, whose keys are
    distinct. *)
Fixpoint dict_get (members : list (str * json)) (key : str) : option json :=
  match members with
  | [] => None
  | (k, v) :: rest => if decide (k = key) then Some v else dict_get rest key
  end.

(** The part of a Starlette [Request] the handler reads: the content-type
    header and what [await request.form()] and [await request.json()]
    yield for its body. *)
Record Request := mkRequest {
  content_type_header : option str;
  form_data : result (gmap str form_value);
  json_body : result json
}.

(** The first part of the first candidate of a Gemini response. *)
Record Part := mkPart { part_text : attr str }.

(** The part of a Gemini response the handler reads: its [text] property and
    the value of [candidates[0].content.parts[0]]. *)
Record LLMResponse := mkLLMResponse {
  response_text : attr str;
  first_part : result Part
}.

(** The payload [agent_chat] returns. *)
Record Response := mkResponse {
  success : bool;
  gemini_text : str;
  audio_urls : list str;
  history : list Turn
}.

(** ** External collaborators *)

(** A call to an external service, as the handler issues it. *)
Inductive call :=
  | CallTranscribe (audio : bytes)
  | CallGenerate (model prompt : str)
  | CallSynthesize (text voice_id : str).

(** The three services behind the handler.  Each may answer differently on
    every call and may raise; [World] is whatever state they keep.
    - [transcribe]: [transcriber.transcribe(file_bytes).text], which is
      [None] when the service recognised nothing;
    - [generate_content]:
      [genai.GenerativeModel(model).generate_content(prompt)];
    - [text_to_speech]:
      [Murf(api_key=...).text_to_speech.generate(text=..., voice_id=...).audio_file].
 *)
Class Collaborators (World : Type) := {
  transcribe : World -> bytes -> World * result (option str);
  generate_content : World -> str -> str -> World * result LLMResponse;
  text_to_speech : World -> str -> str -> World * result str
}.

(** ** The handler's effects

    The handler reads and updates [chat_histories], calls the collaborators
    and uses [try]/[except].  A computation therefore maps a state to a new
    state and either a value or a raised exception; the state changes made
    before an exception is raised stay, as in Python.  [calls] records the
    collaborator calls in the order they were issued. *)
Section Effects.
Context {World : Type} {ext : Collaborators World}.

Record State := mkState {
  chat_histories : Store;
  world : World;
  calls : list call
}.

Definition M (A : Type) : Type := State -> State * result A.

Definition ret {A} (a : A) : M A := fun st => (st, Ok a).

Definition bind {A B} (m : M A) (k : A -> M B) : M B :=
  fun st =>
    match m st with
    | (st', Ok a) => k a st'
    | (st', Raise e) => (st', Raise e)
    end.

(** [try: body / except Exception: handler] *)
Definition try_except {A} (body : M A) (handler : exn -> M A) : M A :=
  fun st =>
    match body st with
    | (st', Ok a) => (st', Ok a)
    | (st', Raise e) => handler e st'
    end.

Definition lift {A} (r : result A) : M A := fun st => (st, r).

(** One call to a collaborator: the world moves on and the call is logged. *)
Definition external {A} (c : call) (f : World -> World * result A) : M A :=
  fun st =>
    let (w, r) := f (world st) in
    (mkState (chat_histories st) w (calls st ++ [c]), r).

Definition read_history (session_id : str) : M (list Turn) :=
  fun st => (st, Ok (get_chat_history (chat_histories st) session_id)).

(** The state after [append_to_history(session_id, role, content)]. *)
Definition appended (st : State) (session_id role content : str) : State :=
  mkState (append_to_history (chat_histories st) session_id role content)
          (world st) (calls st).

Definition append_turn (session_id role content : str) : M unit :=
  fun st => (appended st session_id role content, Ok tt).

End Effects.

Declare Scope py_scope.
Delimit Scope py_scope with py.
Notation "x <- m ;; k" := (bind m (fun x => k))
  (at level 100, m at next level, right associativity) : py_scope.
Notation "m ;;; k" := (bind m (fun _ => k))
  (at level 100, right associativity) : py_scope.

(** ** Turn orchestrator (main.py, lines 196-296) *)

(** The newline character, as a string. *)
Definition nl : str := [10%N].

(** The fixed replies, the model and the voice of [agent_chat]. *)
Definition SORRY_AUDIO : str :=
  lit "Sorry, I couldn" ++ [rsquo] ++ lit "t process the audio.".
Definition DIDNT_CATCH : str :=
  lit "I didn" ++ [rsquo] ++ lit "t catch anything. Can you try again?".
Definition FALLBACK_REPLY : str :=
  lit "I had trouble thinking of a reply, but let's keep going.".
Definition UNEXPECTED : str :=
  lit "Something unexpected happened, but I" ++ [rsquo]
    ++ lit "m still here!".
Definition NO_RESPONSE : str := lit "No response.".
Definition GEMINI_MODEL : str := lit "gemini-1.5-flash".
Definition VOICE_ID : str := lit "en-UK-peter".

(** Lines 199-220: the request is read into [file_bytes] and [input_text].
    Both start as [None]; an exception anywhere in the block resets
    [input_text] to [None] and leaves [file_bytes] as it was. *)
Definition handle_input (request : Request) : option bytes * option str :=
  let content_type := default [] (content_type_header request) in
  if startswith content_type (lit "multipart/form-data") then
    match form_data request with
    | Raise _ => (None, None)
    | Ok form =>
        let read_file :=
          match form !! lit "file" with
          | Some (FormUpload read) =>
              match read with
              | Ok b => Ok (Some b)
              | Raise e => Raise e
              end
          | _ => Ok None
          end in
        match read_file with
        | Raise _ => (None, None)
        | Ok file_bytes =>
            match form !! lit "text" with
            | Some (FormStr s) => (file_bytes, Some (strip s))
            | Some (FormUpload _) => (file_bytes, None)
            | None => (file_bytes, None)
            end
        end
    end
  else if startswith content_type (lit "application/json") then
    match json_body request with
    | Raise _ => (None, None)
    | Ok (JObject body) =>
        match dict_get body (lit "text") with
        | None => (None, Some (strip []))
        | Some (JString s) => (None, Some (strip s))
        | Some _ => (None, None)
        end
    | Ok _ => (None, None)
    end
  else (None, None).

(** Line 248: one history entry as a line of the prompt. *)
Definition render_turn (msg : Turn) : str :=
  (if decide (role msg = lit "user") then lit "User" else lit "Assistant")
    ++ lit ": " ++ content msg.

(** Lines 247-258: the prompt for a history. *)
Definition build_prompt (history : list Turn) : str :=
  let history_text := join nl (map render_turn history) in
  nl ++ lit "You are a friendly AI voice assistant." ++ nl
     ++ lit "Continue the conversation naturally based on the following history:"
     ++ nl ++ nl ++ history_text ++ nl ++ nl ++ lit "Assistant:" ++ nl.

(** Lines 261-262:
    [getattr(r, "text", None) or getattr(r.candidates[0].content.parts[0], "text", "No response.")] *)
Definition reply_text (r : LLMResponse) : result str :=
  let from_part :=
    match first_part r with
    | Raise e => Raise e
    | Ok part =>
        match part_text part with
        | Present s => Ok s
        | Missing => Ok NO_RESPONSE
        | Raising e => Raise e
        end
    end in
  match response_text r with
  | Raising e => Raise e
  | Present (c :: s) => Ok (c :: s)
  | Present [] => from_part
  | Missing => from_part
  end.

(** Lines 260-262 on an answer of the model: the text read from it, or the
    exception of the call or of the reading. *)
Definition read_reply (answer : result LLMResponse) : result str :=
  match answer with
  | Ok llm_response => reply_text llm_response
  | Raise e => Raise e
  end.

(** Lines 259-264: the text read from the answer, or the fallback when
    anything raised. *)
Definition reply_or_fallback (answer : result LLMResponse) : str :=
  match read_reply answer with
  | Ok s => s
  | Raise _ => FALLBACK_REPLY
  end.

(** Python's [not x] for an optional string or bytes object: [None] and the
    empty sequence are false. *)
Definition falsy {A} (x : option (list A)) : Prop := x = None \/ x = Some [].

(** The calls that synthesise [chunks], in order. *)
Definition synthesis_calls (chunks : list str) : list call :=
  map (fun chunk => CallSynthesize chunk VOICE_ID) chunks.

(** The texts the synthesiser was called on, in the order of the calls. *)
Definition synthesized (log : list call) : list str :=
  omap (fun c => match c with
                 | CallSynthesize text _ => Some text
                 | _ => None
                 end) log.

(** How lines 199-241 end: with one of the two early returns or with the
    text of the user's turn. *)
Inductive resolution :=
  | TranscriptionFailed
  | NoInput
  | Resolved (input_text : str).

(** Line 235: [if not input_text]. *)
Definition classify (input_text : option str) : resolution :=
  match input_text with
  | Some (c :: s) => Resolved (c :: s)
  | _ => NoInput
  end.

(** The fixed reply of an early return. *)
Definition early_reply (res : resolution) : str :=
  match res with TranscriptionFailed => SORRY_AUDIO | _ => DIDNT_CATCH end.

Section Handler.
Context {World : Type} {ext : Collaborators World}.
Local Open Scope py_scope.

(** Lines 199-241, up to the choice among the two early returns and going
    on: non-empty [file_bytes] are transcribed and the transcript replaces
    [input_text]. *)
Definition resolve_input (request : Request) : M resolution :=
  let '(file_bytes, input_text) := handle_input request in
  match file_bytes with
  | Some ((_ :: _) as audio) =>
      try_except
        (text <- external (CallTranscribe audio)
                   (fun w => transcribe w audio);;
         ret (classify text))
        (fun _ => ret TranscriptionFailed)
  | _ => ret (classify input_text)
  end.

(** Lines 246-264. *)
Definition generate_reply (session_id : str) : M str :=
  try_except
    (msgs <- read_history session_id;;
     let prompt := build_prompt msgs in
     llm_response <- external (CallGenerate GEMINI_MODEL prompt)
                       (fun w => generate_content w GEMINI_MODEL prompt);;
     lift (reply_text llm_response))
    (fun _ => ret FALLBACK_REPLY).

(** Lines 273-279: the loop over the chunks. *)
Fixpoint synthesize_chunks (chunks : list str) (audio_urls : list str)
  : M (list str) :=
  match chunks with
  | [] => ret audio_urls
  | chunk :: rest =>
      (audio_file <- external (CallSynthesize chunk VOICE_ID)
                       (fun w => text_to_speech w chunk VOICE_ID);;
       synthesize_chunks rest (audio_urls ++ [audio_file]))
  end.

(** Lines 269-281. *)
Definition synthesize (gemini_text : str) : M (list str) :=
  try_except (synthesize_chunks (chunk_text gemini_text MAX_LEN) [])
             (fun _ => ret []).

(** [agent_chat(session_id, request)] *)
Definition agent_chat (session_id : str) (request : Request) : M Response :=
  try_except
    (r <- resolve_input request;;
     match r with
     | TranscriptionFailed =>
         h <- read_history session_id;;
         ret (mkResponse true SORRY_AUDIO [] h)
     | NoInput =>
         h <- read_history session_id;;
         ret (mkResponse true DIDNT_CATCH [] h)
     | Resolved input_text =>
         append_turn session_id (lit "user") input_text;;;
         gemini_text <- generate_reply session_id;;
         append_turn session_id (lit "assistant") gemini_text;;;
         audio_urls <- synthesize gemini_text;;
         h <- read_history session_id;;
         ret (mkResponse true gemini_text audio_urls h)
     end)
    (fun _ =>
       h <- read_history session_id;;
       ret (mkResponse true UNEXPECTED [] h)).

End Handler.

(** ** Peripheral endpoints (main.py, lines 57-73, 90-98, 121-133, 168-192)

    [/tts], [/transcribe/file], [/llm/query] and [/llm/query/text] wrap
    their body in [try] and turn every exception into
    [HTTPException(status_code=500, detail=f"<what> failed: {str(e)}")]. *)

(** How an endpoint ends: with the payload it returns, or with the
    [HTTPException] it raises. *)
Inductive http (A : Type) :=
  | Returned (payload : A)
  | HTTPException (status_code : nat) (detail : str).
Arguments Returned {A} payload.
Arguments HTTPException {A} status_code detail.

(** [class TTSRequest(BaseModel)] *)
Record TTSRequest := mkTTSRequest {
  tts_text : str;
  tts_voiceId : str;
  tts_style : str
}.

(** [class LLMRequest(BaseModel)] *)
Record LLMRequest := mkLLMRequest {
  llm_text : str;
  llm_model : str
}.

(** The payload of [/llm/query/text]. *)
Record SpokenReply := mkSpokenReply {
  llm_response : str;
  audio_url : str
}.

(** [llm_response.text], read directly: without the attribute the access
    raises [AttributeError]. *)
Definition get_text (r : LLMResponse) : result str :=
  match response_text r with
  | Present s => Ok s
  | Missing => Raise AttributeError
  | Raising e => Raise e
  end.

(** Lines 177-178 (and 150-151):
    [[
    if len(response_text) > 3000:
        response_text = response_text[:2995] + "..."
    ]] *)
Definition limit_text (response_text : str) : str :=
  if 3000 <? length response_text
  then slice response_text 0 2995 ++ lit "..."
  else response_text.

Section Endpoints.
Context {World : Type} {ext : Collaborators World}.
(** Python's [str(e)]. *)
Variable str_of : exn -> str.
Local Open Scope py_scope.

(** [try: body / except Exception as e: raise HTTPException(500, what + str(e))] *)
Definition or_500 {A} (what : str) (body : @M World A)
  : @State World -> @State World * http A :=
  fun st =>
    match body st with
    | (st', Ok a) => (st', Returned a)
    | (st', Raise e) => (st', HTTPException 500 (what ++ str_of e))
    end.

(** [generate_tts(request)], lines 63-73; the payload is its [audio_url]. *)
Definition generate_tts (request : TTSRequest)
  : @State World -> @State World * http str :=
  or_500 (lit "TTS generation failed: ")
    (external (CallSynthesize (tts_text request) (tts_voiceId request))
       (fun w => text_to_speech w (tts_text request) (tts_voiceId request))).

(** [transcribe_audio(file)], lines 91-98; [file] is what [await file.read()]
    yields and the payload is its [transcription]. *)
Definition transcribe_audio (file : result bytes)
  : @State World -> @State World * http (option str) :=
  or_500 (lit "Transcription failed: ")
    (audio_bytes <- lift file;;
     external (CallTranscribe audio_bytes)
       (fun w => transcribe w audio_bytes)).

(** [llm_query(request)], lines 126-133; the payload is its [response]. *)
Definition llm_query (request : LLMRequest)
  : @State World -> @State World * http str :=
  or_500 (lit "LLM query failed: ")
    (response <- external (CallGenerate (llm_model request) (llm_text request))
                   (fun w => generate_content w (llm_model request)
                               (llm_text request));;
     lift (get_text response)).

(** [llm_query_text(request)], lines 168-192. *)
Definition llm_query_text (request : LLMRequest)
  : @State World -> @State World * http SpokenReply :=
  or_500 (lit "LLM text query failed: ")
    (llm_response <- external
                       (CallGenerate (llm_model request) (llm_text request))
                       (fun w => generate_content w (llm_model request)
                                   (llm_text request));;
     text <- lift (get_text llm_response);;
     let response_text := limit_text (strip text) in
     audio_file <- external (CallSynthesize response_text VOICE_ID)
                     (fun w => text_to_speech w response_text VOICE_ID);;
     ret (mkSpokenReply response_text audio_file)).

End Endpoints.

(** ** Serving several requests

    Every line of [agent_chat] that touches [chat_histories] comes after its
    last [await], so the calls to the handler take effect one after the
    other; [serve] is the state after a sequence of them, oldest first. *)
Definition serve `{ext : Collaborators World}
    (requests : list (str * Request)) (st : State) : State :=
  foldl (fun st r => (agent_chat r.1 r.2 st).1) st requests.

(** Roles alternate in a history, starting with the user's and ending with
    the assistant's. *)
Fixpoint alternating (turns : list Turn) : Prop :=
  match turns with
  | [] => True
  | user_turn :: rest =>
      match rest with
      | [] => False
      | reply_turn :: rest' =>
          role user_turn = lit "user" /\ role reply_turn = lit "assistant"
          /\ alternating rest'
      end
  end.

(** ** A scripted implementation of the collaborators

    Each service answers from a list prepared in advance, one answer per
    call, and raises once its list is used up.  It serves to run the
    handler on concrete requests. *)
Record Script := mkScript {
  stt_answers : list (result (option str));
  llm_answers : list (result LLMResponse);
  tts_answers : list (result str)
}.

Definition exhausted : exn := CollaboratorError (lit "no answer left").

(** [str(e)] for the exceptions of the scripted services. *)
Definition scripted_str (e : exn) : str :=
  match e with
  | AttributeError => lit "object has no attribute"
  | IndexError => lit "list index out of range"
  | CollaboratorError detail => detail
  end.

Definition scripted : Collaborators Script := {|
  transcribe w _ :=
    match stt_answers w with
    | a :: rest => (mkScript rest (llm_answers w) (tts_answers w), a)
    | [] => (w, Raise exhausted)
    end;
  generate_content w _ _ :=
    match llm_answers w with
    | a :: rest => (mkScript (stt_answers w) rest (tts_answers w), a)
    | [] => (w, Raise exhausted)
    end;
  text_to_speech w _ _ :=
    match tts_answers w with
    | a :: rest => (mkScript (stt_answers w) (llm_answers w) rest, a)
    | [] => (w, Raise exhausted)
    end
|}.

(** A Gemini response whose [text] property holds [s]. *)
Definition says (s : str) : LLMResponse :=
  mkLLMResponse (Present s) (Ok (mkPart (Present s))).

(** The request [POST] with a JSON body [{"text": s}]. *)
Definition json_request (s : str) : Request :=
  mkRequest (Some (lit "application/json"))
            (Raise (CollaboratorError (lit "not a form")))
            (Ok (JObject [(lit "text", JString s)])).

(** The request [POST] with a multipart body holding one audio file. *)
Definition audio_request (audio : bytes) : Request :=
  mkRequest (Some (lit "multipart/form-data; boundary=x"))
            (Ok {[ lit "file" := FormUpload (Ok audio) ]})
            (Raise (CollaboratorError (lit "not JSON"))).

(** A reply of exactly 7000 characters. *)
Definition long_reply : str := repeat 97%N (7 * 1000).

(** A fresh process: no session, no call made yet. *)
Definition fresh (w : Script) : @State Script := mkState ∅ w [].


(** * Properties *)

(** ** The chunker *)

Section ChunkText.
Implicit Types (text : str) (max_len : positive).

Lemma slice_window {A} (l : list A) i n : slice l i (i + n) = take n (drop i l).
Proof. unfold slice. f_equal. lia. Qed.

(** [chunk_text] lists the windows of width [max_len] at the multiples of
    [max_len]. *)
Lemma chunk_text_windows text max_len :
  chunk_text text max_len =
    map (fun k => take (Pos.to_nat max_len) (drop (k * Pos.to_nat max_len) text))
        (seq 0 (range_len (length text) (Pos.to_nat max_len))).
Proof.
  unfold chunk_text, range. rewrite map_map.
  apply map_ext. intros k. apply slice_window.
Qed.

Lemma range_len_step len n :
  0 < n -> 0 < len -> range_len len n = S (range_len (len - n) n).
Proof.
  intros Hn Hlen. destruct len as [|m]; [lia|]. simpl range_len.
  destruct (le_lt_dec n m) as [Hle|Hlt].
  - replace (S m - n) with (S (m - n)) by lia. simpl range_len.
    replace m with ((m - n) + 1 * n) at 1 by lia.
    rewrite Nat.div_add by lia. lia.
  - replace (S m - n) with 0 by lia. simpl range_len.
    rewrite Nat.div_small by lia. reflexivity.
Qed.

Lemma chunk_text_nil max_len : chunk_text [] max_len = [].
Proof. reflexivity. Qed.

(** The comprehension, read as a loop: the first window, then the chunks of
    what follows it. *)
Lemma chunk_text_unfold text max_len :
  text <> [] ->
  chunk_text text max_len =
    take (Pos.to_nat max_len) text
      :: chunk_text (drop (Pos.to_nat max_len) text) max_len.
Proof.
  intros Hne. rewrite !chunk_text_windows.
  set (n := Pos.to_nat max_len).
  assert (0 < n) as Hn by (unfold n; lia).
  assert (0 < length text) as Hlen by (destruct text; [done | simpl; lia]).
  rewrite (range_len_step (length text) n Hn Hlen).
  rewrite length_drop. cbn [seq map]. rewrite <- seq_shift, map_map.
  f_equal. apply map_ext. intros k.
  rewrite drop_drop. reflexivity.
Qed.

Lemma chunk_text_concat text max_len :
  concat (chunk_text text max_len) = text.
Proof.
  remember (length text) as len eqn:Hlen.
  revert text Hlen. induction len as [len IH] using lt_wf_ind.
  intros text Hlen. destruct text as [|c text'].
  - reflexivity.
  - rewrite chunk_text_unfold by discriminate.
    simpl concat. rewrite (IH (length (drop (Pos.to_nat max_len) (c :: text')))).
    + apply take_drop.
    + rewrite length_drop. subst len. simpl. lia.
    + reflexivity.
Qed.

Lemma chunk_text_bounded text max_len :
  Forall (fun chunk => length chunk <= Pos.to_nat max_len)
         (chunk_text text max_len).
Proof.
  rewrite chunk_text_windows. apply Forall_forall. intros chunk Hin.
  apply list_elem_of_fmap in Hin as (k & -> & _).
  rewrite length_take. lia.
Qed.

Lemma chunk_text_lookup text max_len k chunk :
  chunk_text text max_len !! k = Some chunk ->
  chunk = slice text (k * Pos.to_nat max_len) ((k + 1) * Pos.to_nat max_len).
Proof.
  unfold chunk_text, range. rewrite !list_lookup_fmap.
  destruct (seq 0 _ !! k) as [j|] eqn:Hj; [|discriminate].
  apply lookup_seq in Hj as [-> _]. simpl. intros [= <-].
  f_equal. lia.
Qed.

Lemma chunk_text_single text max_len :
  0 < length text <= Pos.to_nat max_len ->
  chunk_text text max_len = [text].
Proof.
  intros [Hpos Hle]. rewrite chunk_text_unfold by (destruct text; simpl in *; [lia|discriminate]).
  rewrite take_ge, drop_ge by lia. reflexivity.
Qed.

End ChunkText.

(** ** Stripping *)

Lemma lstrip_spec (s : str) :
  exists l,
    s = l ++ lstrip s
    /\ Forall (fun c => isspace c = true) l
    /\ (forall c, head (lstrip s) = Some c -> isspace c = false).
Proof.
  induction s as [|c s (l & Heq & Hl & Hhd)].
  - exists []. repeat split; [constructor | discriminate].
  - simpl. destruct (isspace c) eqn:Hc.
    + exists (c :: l). repeat split; [simpl; congruence | by constructor | done].
    + exists []. repeat split; [constructor | simpl; congruence].
Qed.

Lemma strip_spec (s : str) : stripped_of s (strip s).
Proof.
  destruct (lstrip_spec s) as (l & Hs & Hl & Hhd).
  destruct (lstrip_spec (reverse (lstrip s))) as (r & Hr & Hrs & Hlast).
  assert (lstrip s = strip s ++ reverse r) as Hmid.
  { unfold strip, rstrip. rewrite <- reverse_app, <- Hr.
    by rewrite reverse_involutive. }
  exists l, (reverse r). repeat split.
  - by rewrite <- Hmid.
  - done.
  - by apply Forall_reverse.
  - intros c Hc. apply Hhd. rewrite Hmid.
    destruct (strip s); [discriminate | exact Hc].
  - intros c Hc. apply Hlast. unfold strip, rstrip in Hc.
    rewrite last_reverse in Hc. exact Hc.
Qed.

(** ** The session store *)

Section SessionStore.
Implicit Types (h : Store) (session_id role content : str).

Lemma get_append_same h session_id role content :
  get_chat_history (append_to_history h session_id role content) session_id
  = get_chat_history h session_id ++ [mkTurn role (strip content)].
Proof.
  unfold append_to_history, get_chat_history.
  rewrite lookup_insert_eq. simpl.
  destruct (h !! session_id) as [turns|] eqn:Hh.
  - by rewrite Hh.
  - by rewrite lookup_insert_eq.
Qed.

Lemma lookup_append_other h session_id role content other :
  other <> session_id ->
  append_to_history h session_id role content !! other = h !! other.
Proof.
  intros Hne. unfold append_to_history.
  rewrite lookup_insert_ne by done.
  destruct (h !! session_id); [done|]. by rewrite lookup_insert_ne.
Qed.

Lemma get_append_other h session_id role content other :
  other <> session_id ->
  get_chat_history (append_to_history h session_id role content) other
  = get_chat_history h other.
Proof.
  intros Hne. unfold get_chat_history. by rewrite lookup_append_other.
Qed.

Lemma get_appends h session_id ops :
  get_chat_history (appends h ops) session_id
  = get_chat_history h session_id ++ turns_of session_id ops.
Proof.
  revert h. induction ops as [|[[sid role] content] ops IH]; intros h.
  - unfold turns_of. simpl. by rewrite app_nil_r.
  - unfold appends. simpl. fold (appends (append_to_history h sid role content) ops).
    rewrite IH. unfold turns_of. rewrite filter_cons. simpl.
    destruct (decide (sid = session_id)) as [->|Hne].
    + rewrite get_append_same. simpl. by rewrite <- app_assoc.
    + by rewrite get_append_other.
Qed.

End SessionStore.

(** ** The stages of the handler *)

(** A run that ended: its final state and outcome name those of the goal. *)
Ltac ended := intros [= ? ?]; subst.

Section HandlerFacts.
Context {World : Type} {ext : Collaborators World}.
Implicit Types (st : @State World) (session_id : str) (request : Request).

(** Resolving the input never raises, leaves the store alone and calls at
    most the transcriber. *)
Lemma resolve_input_inv request st st1 r :
  resolve_input request st = (st1, r) ->
  chat_histories st1 = chat_histories st /\ exists v, r = Ok v.
Proof.
  unfold resolve_input, ret.
  destruct (handle_input request) as [file_bytes input_text].
  destruct file_bytes as [[|b audio]|].
  - ended. eauto.
  - unfold try_except, bind, external.
    destruct (transcribe (world st) (b :: audio)) as [w [text|e]];
      simpl; ended; eauto.
  - ended. eauto.
Qed.

(** The reply stage never raises: it logs one call to the model, with the
    prompt built from the session's history, and yields the model's text or
    the fallback. *)
Lemma generate_reply_run session_id st :
  let prompt := build_prompt (get_chat_history (chat_histories st) session_id) in
  let answer := generate_content (world st) GEMINI_MODEL prompt in
  generate_reply session_id st =
    (mkState (chat_histories st) answer.1
             (calls st ++ [CallGenerate GEMINI_MODEL prompt]),
     Ok (reply_or_fallback answer.2)).
Proof.
  unfold generate_reply, try_except, bind, read_history, external, lift, ret.
  simpl.
  unfold reply_or_fallback, read_reply.
  destruct (generate_content _ _ _) as [w [llm_response|e]]; simpl; [|done].
  by destruct (reply_text llm_response).
Qed.

Lemma generate_reply_inv session_id st st' r :
  generate_reply session_id st = (st', r) ->
  chat_histories st' = chat_histories st /\ exists reply, r = Ok reply.
Proof.
  pose proof (generate_reply_run session_id st) as Hrun. cbv zeta in Hrun.
  rewrite Hrun. ended. simpl. eauto.
Qed.

(** The loop over the chunks leaves the store alone and calls the
    synthesiser on the chunks in order, stopping at the first call that
    raises. *)
Lemma synthesize_chunks_run chunks audio_urls st st' r :
  synthesize_chunks chunks audio_urls st = (st', r) ->
  chat_histories st' = chat_histories st
  /\ exists n,
       calls st' = calls st ++ synthesis_calls (take n chunks)
       /\ match r with
          | Ok urls =>
              n = length chunks
              /\ exists new, urls = audio_urls ++ new
                             /\ length new = length chunks
          | Raise _ => 1 <= n <= length chunks
          end.
Proof.
  revert audio_urls st. induction chunks as [|chunk rest IH]; intros acc st.
  - simpl. ended. split; [done|]. exists 0. simpl.
    split; [by rewrite app_nil_r|]. split; [done|].
    exists []. by rewrite app_nil_r.
  - simpl. unfold bind at 1, external.
    destruct (text_to_speech (world st) chunk VOICE_ID) as [w [url|e]].
    + intros Hrest. apply IH in Hrest as (Hstore & n & Hcalls & Hr).
      simpl in *. split; [done|]. exists (S n). simpl.
      split; [by rewrite Hcalls, <- app_assoc|].
      destruct r as [urls|e].
      * destruct Hr as (-> & new & -> & Hlen). split; [done|].
        exists (url :: new). rewrite <- app_assoc. simpl. by rewrite Hlen.
      * lia.
    + ended. simpl. split; [done|]. exists 1.
      simpl. split; [done|lia].
Qed.

(** The synthesis stage never raises; its list is empty when the loop
    raised. *)
Lemma synthesize_run gemini_text st :
  synthesize gemini_text st =
    match synthesize_chunks (chunk_text gemini_text MAX_LEN) [] st with
    | (st', Ok urls) => (st', Ok urls)
    | (st', Raise _) => (st', Ok [])
    end.
Proof. reflexivity. Qed.

Lemma synthesize_inv gemini_text st st' r :
  synthesize gemini_text st = (st', r) ->
  chat_histories st' = chat_histories st /\ exists urls, r = Ok urls.
Proof.
  rewrite synthesize_run.
  destruct (synthesize_chunks _ _ st) as [st'' r'] eqn:Hloop.
  apply synthesize_chunks_run in Hloop as [Hstore _].
  destruct r'; ended; eauto.
Qed.

(** The handler on a request that resolves to [input_text]: both turns are
    appended, the reply and the audio references are those of the two
    stages, and the history is read last. *)
Lemma agent_chat_resolved session_id request st st1 input_text st3 reply st5 urls :
  resolve_input request st = (st1, Ok (Resolved input_text)) ->
  generate_reply session_id (appended st1 session_id (lit "user") input_text)
    = (st3, Ok reply) ->
  synthesize reply (appended st3 session_id (lit "assistant") reply)
    = (st5, Ok urls) ->
  agent_chat session_id request st =
    (st5, Ok (mkResponse true reply urls
                (get_chat_history (chat_histories st5) session_id))).
Proof.
  intros Hres Hgen Hsyn.
  unfold agent_chat, try_except. unfold bind at 1. rewrite Hres.
  unfold bind at 1. unfold append_turn at 1.
  unfold bind at 1. rewrite Hgen.
  unfold bind at 1. unfold append_turn at 1.
  unfold bind at 1. rewrite Hsyn.
  reflexivity.
Qed.

(** A resolved request always runs both stages to their end. *)
Lemma agent_chat_resolved_stages session_id request st st1 input_text :
  resolve_input request st = (st1, Ok (Resolved input_text)) ->
  exists st3 reply st5 urls,
    generate_reply session_id (appended st1 session_id (lit "user") input_text)
      = (st3, Ok reply)
    /\ synthesize reply (appended st3 session_id (lit "assistant") reply)
        = (st5, Ok urls)
    /\ agent_chat session_id request st =
         (st5, Ok (mkResponse true reply urls
                     (get_chat_history (chat_histories st5) session_id))).
Proof.
  intros Hres.
  assert (exists st3 reply,
            generate_reply session_id
              (appended st1 session_id (lit "user") input_text)
            = (st3, Ok reply)) as (st3 & reply & Hgen).
  { destruct (generate_reply _ _) as [st3 r3] eqn:Hgen.
    destruct (generate_reply_inv _ _ _ _ Hgen) as [_ [reply ->]]. eauto. }
  assert (exists st5 urls,
            synthesize reply (appended st3 session_id (lit "assistant") reply)
            = (st5, Ok urls)) as (st5 & urls & Hsyn).
  { destruct (synthesize _ _) as [st5 r5] eqn:Hsyn.
    destruct (synthesize_inv _ _ _ _ Hsyn) as [_ [urls ->]]. eauto. }
  eexists _, _, _, _. split; [exact Hgen|]. split; [exact Hsyn|].
  exact (agent_chat_resolved _ _ _ _ _ _ _ _ _ Hres Hgen Hsyn).
Qed.

(** The two early returns. *)
Lemma agent_chat_early session_id request st st1 r :
  resolve_input request st = (st1, Ok r) ->
  r = TranscriptionFailed \/ r = NoInput ->
  agent_chat session_id request st =
    (st1, Ok (mkResponse true
                (match r with TranscriptionFailed => SORRY_AUDIO | _ => DIDNT_CATCH end)
                [] (get_chat_history (chat_histories st) session_id))).
Proof.
  intros Hres Hr. apply resolve_input_inv in Hres as Hstore.
  destruct Hstore as [Hstore _].
  unfold agent_chat, try_except. unfold bind at 1. rewrite Hres.
  destruct Hr as [-> | ->]; unfold bind, read_history, ret; by rewrite Hstore.
Qed.

(** The history of the session once both turns are appended. *)
Lemma history_after_turn st session_id input_text reply :
  get_chat_history
    (append_to_history
       (append_to_history (chat_histories st) session_id (lit "user") input_text)
       session_id (lit "assistant") reply) session_id
  = get_chat_history (chat_histories st) session_id
      ++ [mkTurn (lit "user") (strip input_text);
          mkTurn (lit "assistant") (strip reply)].
Proof. rewrite !get_append_same, <- app_assoc. reflexivity. Qed.

End HandlerFacts.

(** ** How the input resolves *)

Section ResolveFacts.
Context {World : Type} {ext : Collaborators World}.
Implicit Types (st : @State World) (request : Request).

Lemma classify_falsy (input_text : option str) :
  falsy input_text -> classify input_text = NoInput.
Proof. by intros [-> | ->]. Qed.

Lemma classify_resolved (input_text : option str) (text : str) :
  classify input_text = Resolved text ->
  input_text = Some text /\ text <> [].
Proof. destruct input_text as [[|c s]|]; simpl; by intros [= <-]. Qed.

(** Audio that is present and not empty goes to the transcriber, and its
    transcript, not the text field, decides. *)
Lemma resolve_input_audio request st audio :
  (handle_input request).1 = Some audio -> audio <> [] ->
  resolve_input request st =
    (mkState (chat_histories st) (transcribe (world st) audio).1
             (calls st ++ [CallTranscribe audio]),
     Ok match (transcribe (world st) audio).2 with
        | Ok text => classify text
        | Raise _ => TranscriptionFailed
        end).
Proof.
  unfold resolve_input.
  destruct (handle_input request) as [file_bytes input_text]. simpl.
  intros -> Hne. destruct audio as [|b audio]; [done|].
  unfold try_except, bind, external, ret.
  by destruct (transcribe (world st) (b :: audio)) as [w [text|e]].
Qed.

(** Without audio the text field decides and nothing is called. *)
Lemma resolve_input_text request st :
  falsy (handle_input request).1 ->
  resolve_input request st = (st, Ok (classify (handle_input request).2)).
Proof.
  unfold resolve_input.
  destruct (handle_input request) as [file_bytes input_text]. simpl.
  by intros [-> | ->].
Qed.

End ResolveFacts.

(** ** A whole turn *)

Section TurnFacts.
Context {World : Type} {ext : Collaborators World}.
Implicit Types (st : @State World) (session_id : str) (request : Request).

(** What the synthesis stage leaves behind: the calls are those for a
    prefix of the chunks, all of them when a list of audio references comes
    back non-empty. *)
Lemma synthesize_calls gemini_text st st' urls :
  synthesize gemini_text st = (st', Ok urls) ->
  let chunks := chunk_text gemini_text MAX_LEN in
  chat_histories st' = chat_histories st
  /\ exists n,
       calls st' = calls st ++ synthesis_calls (take n chunks)
       /\ n <= length chunks
       /\ (chunks <> [] -> 1 <= n)
       /\ (urls = [] \/ n = length chunks /\ length urls = length chunks).
Proof.
  intros Hsyn chunks. rewrite synthesize_run in Hsyn. fold chunks in Hsyn.
  destruct (synthesize_chunks chunks [] st) as [st'' r] eqn:Hloop.
  apply synthesize_chunks_run in Hloop as (Hstore & n & Hcalls & Hr).
  destruct r as [urls'|e]; injection Hsyn as -> <-.
  - destruct Hr as (-> & new & -> & Hlen). split; [done|].
    exists (length chunks). split; [done|]. split; [done|].
    split; [destruct chunks; simpl; [done|lia]|]. right. by simpl.
  - split; [done|]. exists n. split; [done|]. split; [lia|].
    split; [lia|]. by left.
Qed.

(** The run of the handler on a request that resolves to [input_text],
    stage by stage: the user turn is appended, the model is asked with the
    prompt of the history that includes it, the reply (or the fallback) is
    appended, and the synthesis stage runs on that reply. *)
Lemma agent_chat_turn session_id request st st1 input_text :
  resolve_input request st = (st1, Ok (Resolved input_text)) ->
  let before := get_chat_history (chat_histories st) session_id in
  let prompt :=
    build_prompt (before ++ [mkTurn (lit "user") (strip input_text)]) in
  let answer := generate_content (world st1) GEMINI_MODEL prompt in
  let reply := reply_or_fallback answer.2 in
  let st4 :=
    mkState
      (append_to_history
         (append_to_history (chat_histories st) session_id (lit "user") input_text)
         session_id (lit "assistant") reply)
      answer.1 (calls st1 ++ [CallGenerate GEMINI_MODEL prompt]) in
  exists st5 urls,
    synthesize reply st4 = (st5, Ok urls)
    /\ chat_histories st5 = chat_histories st4
    /\ agent_chat session_id request st =
         (st5, Ok (mkResponse true reply urls
                     (before ++ [mkTurn (lit "user") (strip input_text);
                                 mkTurn (lit "assistant") (strip reply)]))).
Proof.
  intros Hres before prompt answer reply st4.
  destruct (resolve_input_inv _ _ _ _ Hres) as [Hstore _].
  pose proof (generate_reply_run session_id
                (appended st1 session_id (lit "user") input_text)) as Hgen.
  cbv zeta in Hgen. unfold appended at 2 3 4 5 6 in Hgen. simpl in Hgen.
  rewrite Hstore, get_append_same in Hgen.
  fold before prompt answer reply in Hgen.
  destruct (agent_chat_resolved_stages session_id _ _ _ _ Hres)
    as (st3 & reply' & st5 & urls & Hgen' & Hsyn & Hrun).
  rewrite Hgen in Hgen'. injection Hgen' as <- <-.
  unfold appended in Hsyn. simpl in Hsyn. fold st4 in Hsyn.
  exists st5, urls.
  destruct (synthesize_inv _ _ _ _ Hsyn) as [Hstore5 _].
  split; [exact Hsyn|]. split; [exact Hstore5|].
  rewrite Hrun, Hstore5. unfold st4. simpl chat_histories.
  by rewrite history_after_turn.
Qed.

End TurnFacts.

(** * The claims *)

(** C1: for every text, [chunk_text] with the default [max_len] of 3000
    returns, in order, the contiguous and non-overlapping windows of the
    text: chunk number [k] is the slice from [3000 * k] to
    [3000 * k + 3000], every chunk has at most 3000 characters, the chunks
    concatenate to the text, and the empty text has no chunk.  Being a Rocq
    function of the text alone, [chunk_text] is deterministic and pure. *)
Theorem chunk_text_lossless (T : str) :
  concat (chunk_text T MAX_LEN) = T
  /\ Forall (fun chunk => length chunk <= 3000) (chunk_text T MAX_LEN)
  /\ (forall k chunk,
        chunk_text T MAX_LEN !! k = Some chunk ->
        chunk = slice T (3000 * k) (3000 * k + 3000))
  /\ chunk_text [] MAX_LEN = [].
Proof.
  assert (Pos.to_nat MAX_LEN = 3000) as Hmax by (unfold MAX_LEN; lia).
  split; [apply chunk_text_concat|].
  split; [rewrite <- Hmax; apply chunk_text_bounded|].
  split; [|apply chunk_text_nil].
  intros k chunk Hk. apply chunk_text_lookup in Hk. rewrite Hmax in Hk.
  rewrite Hk. f_equal; lia.
Qed.

Lemma chunk_text_lossless_witness :
  concat (chunk_text (lit "mid-word splits are fine") MAX_LEN)
  = lit "mid-word splits are fine".
Proof. exact (proj1 (chunk_text_lossless (lit "mid-word splits are fine"))). Defined.




(** C6: [append_to_history] adds exactly one turn, with the content stripped
    of its leading and trailing whitespace, at the end of that session's
    history and touches no other session; the session exists afterwards,
    and holds exactly that one turn when it was absent before.
    [get_chat_history] returns the turns of a session in the order of the
    calls that appended them, and the empty list for an absent session. *)
Theorem session_store_append_and_history
    (h : Store) (session_id role content : str) :
  let h' := append_to_history h session_id role content in
  get_chat_history h' session_id
    = get_chat_history h session_id ++ [mkTurn role (strip content)]
  /\ stripped_of content (strip content)
  /\ (forall other, other <> session_id -> h' !! other = h !! other)
  /\ is_Some (h' !! session_id)
  /\ (h !! session_id = None ->
      get_chat_history h' session_id = [mkTurn role (strip content)])
  /\ (forall ops,
        get_chat_history (appends h ops) session_id
        = get_chat_history h session_id ++ turns_of session_id ops)
  /\ (h !! session_id = None -> get_chat_history h session_id = []).
Proof.
  intros h'. subst h'.
  split; [apply get_append_same|].
  split; [apply strip_spec|].
  split; [intros other Hne; by apply lookup_append_other|].
  split; [unfold append_to_history; rewrite lookup_insert_eq; eauto|].
  split.
  { intros Hnone. rewrite get_append_same. unfold get_chat_history.
    by rewrite Hnone. }
  split; [apply get_appends|].
  intros Hnone. unfold get_chat_history. by rewrite Hnone.
Qed.

Lemma session_store_append_and_history_witness :
  get_chat_history
    (append_to_history (∅ : Store) (lit "s1") (lit "user") (lit "  Hello "))
    (lit "s1")
  = [mkTurn (lit "user") (lit "Hello")].
Proof.
  apply (session_store_append_and_history ∅ (lit "s1") (lit "user")
           (lit "  Hello ")).
  reflexivity.
Defined.

(** C2: whatever the request holds and however the collaborators answer or
    fail, [agent_chat] returns a payload, never an exception, and the
    payload's [success] is [true]. *)
Theorem agent_chat_always_succeeds `{ext : Collaborators World}
    (session_id : str) (request : Request) (st : State) :
  exists st' resp,
    agent_chat session_id request st = (st', Ok resp)
    /\ success resp = true.
Proof.
  destruct (resolve_input request st) as [st1 r] eqn:Hres.
  destruct (resolve_input_inv _ _ _ _ Hres) as [_ [v ->]].
  destruct v as [| |input_text].
  - eexists _, _. split; [apply (agent_chat_early _ _ _ _ _ Hres); auto|done].
  - eexists _, _. split; [apply (agent_chat_early _ _ _ _ _ Hres); auto|done].
  - destruct (agent_chat_resolved_stages session_id _ _ _ _ Hres)
      as (st3 & reply & st5 & urls & _ & _ & Hrun).
    eexists _, _. split; [exact Hrun|done].
Qed.

(** C3: a request whose audio the transcriber rejects, and a request that
    resolves to no usable input (no audio and no text, or audio whose
    transcript is empty), each end the handler early: the payload carries
    the fixed reply of its case, no audio reference, [success] and the
    session's history as it was, and the session store is unchanged. *)
Theorem agent_chat_short_circuit `{ext : Collaborators World}
    (session_id : str) (request : Request) (st : State) :
  (forall audio e,
     (handle_input request).1 = Some audio -> audio <> [] ->
     (transcribe (world st) audio).2 = Raise e ->
     exists st',
       agent_chat session_id request st =
         (st', Ok (mkResponse true SORRY_AUDIO []
                     (get_chat_history (chat_histories st) session_id)))
       /\ chat_histories st' = chat_histories st)
  /\ (falsy (handle_input request).1 -> falsy (handle_input request).2 ->
      agent_chat session_id request st =
        (st, Ok (mkResponse true DIDNT_CATCH []
                   (get_chat_history (chat_histories st) session_id))))
  /\ (forall audio text,
        (handle_input request).1 = Some audio -> audio <> [] ->
        (transcribe (world st) audio).2 = Ok text -> falsy text ->
        exists st',
          agent_chat session_id request st =
            (st', Ok (mkResponse true DIDNT_CATCH []
                        (get_chat_history (chat_histories st) session_id)))
          /\ chat_histories st' = chat_histories st).
Proof.
  split; [|split].
  - intros audio e Haudio Hne Hfail.
    pose proof (resolve_input_audio request st audio Haudio Hne) as Hres.
    rewrite Hfail in Hres.
    eexists. split; [apply (agent_chat_early _ _ _ _ _ Hres); auto|].
    reflexivity.
  - intros Hbytes Htext.
    pose proof (resolve_input_text request st Hbytes) as Hres.
    rewrite (classify_falsy _ Htext) in Hres.
    apply (agent_chat_early _ _ _ _ _ Hres); auto.
  - intros audio text Haudio Hne Hok Htext.
    pose proof (resolve_input_audio request st audio Haudio Hne) as Hres.
    rewrite Hok, (classify_falsy _ Htext) in Hres.
    eexists. split; [apply (agent_chat_early _ _ _ _ _ Hres); auto|].
    reflexivity.
Qed.

Lemma agent_chat_short_circuit_witness :
  exists st',
    agent_chat (ext := scripted) (lit "s1") (audio_request [Byte.x52])
      (fresh (mkScript [Raise exhausted] [] []))
    = (st', Ok (mkResponse true SORRY_AUDIO [] []))
    /\ chat_histories st' = ∅.
Proof.
  apply (proj1 (agent_chat_short_circuit (ext := scripted) (lit "s1")
                  (audio_request [Byte.x52])
                  (fresh (mkScript [Raise exhausted] [] [])))
           [Byte.x52] exhausted).
  - vm_compute. reflexivity.
  - discriminate.
  - reflexivity.
Defined.

Lemma strip_fallback_reply : strip FALLBACK_REPLY = FALLBACK_REPLY.
Proof. vm_compute. reflexivity. Qed.

Lemma chunk_text_fallback_reply :
  chunk_text FALLBACK_REPLY MAX_LEN = [FALLBACK_REPLY].
Proof. apply chunk_text_single. vm_compute. lia. Qed.

(** C4: when the call to the model, or the reading of its answer, raises
    after the user turn was appended, the reply is the fixed fallback text
    and the handler goes on: the assistant turn with the fallback text is
    appended after the user turn, the synthesiser is called on the fallback
    text, and the payload's [gemini_text] is the fallback text. *)
Theorem agent_chat_llm_failure `{ext : Collaborators World}
    (session_id : str) (request : Request) (st st1 : State)
    (input_text : str) (e : exn) :
  resolve_input request st = (st1, Ok (Resolved input_text)) ->
  let before := get_chat_history (chat_histories st) session_id in
  let prompt :=
    build_prompt (before ++ [mkTurn (lit "user") (strip input_text)]) in
  read_reply (generate_content (world st1) GEMINI_MODEL prompt).2 = Raise e ->
  exists st' resp,
    agent_chat session_id request st = (st', Ok resp)
    /\ gemini_text resp = FALLBACK_REPLY
    /\ history resp =
         before ++ [mkTurn (lit "user") (strip input_text);
                    mkTurn (lit "assistant") FALLBACK_REPLY]
    /\ get_chat_history (chat_histories st') session_id = history resp
    /\ calls st' =
         calls st1 ++ [CallGenerate GEMINI_MODEL prompt;
                       CallSynthesize FALLBACK_REPLY VOICE_ID].
Proof.
  intros Hres before prompt Hfail.
  destruct (agent_chat_turn session_id _ _ _ _ Hres)
    as (st5 & urls & Hsyn & Hstore & Hrun).
  fold before prompt in Hsyn, Hstore, Hrun.
  unfold reply_or_fallback in Hsyn, Hstore, Hrun.
  rewrite Hfail in Hsyn, Hstore, Hrun.
  rewrite strip_fallback_reply in Hrun.
  apply synthesize_calls in Hsyn as (_ & n & Hcalls & Hle & Hge & _).
  rewrite chunk_text_fallback_reply in Hcalls, Hle, Hge.
  assert (n = 1) as -> by (specialize (Hge ltac:(discriminate)); simpl in Hle; lia).
  eexists _, _. split; [exact Hrun|]. simpl.
  split; [done|]. split; [done|].
  split.
  - rewrite Hstore. simpl. by rewrite history_after_turn, strip_fallback_reply.
  - rewrite Hcalls. simpl. by rewrite <- app_assoc.
Qed.

Lemma agent_chat_llm_failure_witness :
  exists st' resp,
    agent_chat (ext := scripted) (lit "s1") (json_request (lit "Hello"))
      (fresh (mkScript [] [Raise exhausted] [Ok (lit "a.mp3")]))
    = (st', Ok resp)
    /\ gemini_text resp = FALLBACK_REPLY
    /\ history resp =
         [mkTurn (lit "user") (lit "Hello");
          mkTurn (lit "assistant") FALLBACK_REPLY]
    /\ get_chat_history (chat_histories st') (lit "s1") = history resp
    /\ calls st' =
         [CallGenerate GEMINI_MODEL
            (build_prompt [mkTurn (lit "user") (lit "Hello")]);
          CallSynthesize FALLBACK_REPLY VOICE_ID].
Proof.
  apply (agent_chat_llm_failure (ext := scripted) (lit "s1")
           (json_request (lit "Hello"))
           (fresh (mkScript [] [Raise exhausted] [Ok (lit "a.mp3")]))
           (fresh (mkScript [] [Raise exhausted] [Ok (lit "a.mp3")]))
           (lit "Hello") exhausted).
  - vm_compute. reflexivity.
  - vm_compute. reflexivity.
Defined.



(** C7: on a request that resolves to a text, the model is called once, and
    its prompt is one string: the persona lines, then one line per turn of
    the session's whole history, the user turn just appended included and
    last, each rendered as [User: <content>] or [Assistant: <content>] and
    in the order of the history, then an empty line and the [Assistant:]
    cue on the last line. *)
Theorem agent_chat_prompt `{ext : Collaborators World}
    (session_id : str) (request : Request) (st st1 : State)
    (input_text : str) :
  resolve_input request st = (st1, Ok (Resolved input_text)) ->
  let msgs :=
    get_chat_history (chat_histories st) session_id
      ++ [mkTurn (lit "user") (strip input_text)] in
  let lines := map render_turn msgs in
  (exists st' resp chunks,
     agent_chat session_id request st = (st', Ok resp)
     /\ calls st' =
          calls st1 ++ CallGenerate GEMINI_MODEL (build_prompt msgs)
                       :: synthesis_calls chunks)
  /\ build_prompt msgs =
       nl ++ lit "You are a friendly AI voice assistant." ++ nl
          ++ lit "Continue the conversation naturally based on the following history:"
          ++ nl ++ nl ++ join nl lines ++ nl ++ nl ++ lit "Assistant:" ++ nl
  /\ length lines = length msgs
  /\ (forall i msg,
        msgs !! i = Some msg ->
        lines !! i =
          Some ((if decide (role msg = lit "user")
                 then lit "User: " else lit "Assistant: ") ++ content msg)).
Proof.
  intros Hres msgs lines.
  split; [|split; [reflexivity|split; [apply length_map|]]].
  - destruct (agent_chat_turn session_id _ _ _ _ Hres)
      as (st5 & urls & Hsyn & _ & Hrun).
    fold msgs in Hsyn, Hrun.
    apply synthesize_calls in Hsyn as (_ & n & Hcalls & _).
    eexists _, _, _. split; [exact Hrun|].
    rewrite Hcalls. simpl. by rewrite <- app_assoc.
  - intros i msg Hi. unfold lines. rewrite list_lookup_fmap, Hi. simpl.
    unfold render_turn. by destruct (decide (role msg = lit "user")).
Qed.

Lemma agent_chat_prompt_witness :
  build_prompt [mkTurn (lit "user") (lit "Hi");
                mkTurn (lit "assistant") (lit "Hello!");
                mkTurn (lit "user") (lit "Bye")]
  = nl ++ lit "You are a friendly AI voice assistant." ++ nl
       ++ lit "Continue the conversation naturally based on the following history:"
       ++ nl ++ nl
       ++ lit "User: Hi" ++ nl ++ lit "Assistant: Hello!" ++ nl
       ++ lit "User: Bye"
       ++ nl ++ nl ++ lit "Assistant:" ++ nl.
Proof.
  apply (proj1 (proj2
    (agent_chat_prompt (ext := scripted) (lit "s1")
       (json_request (lit " Bye "))
       (mkState {[ lit "s1" := [mkTurn (lit "user") (lit "Hi");
                                mkTurn (lit "assistant") (lit "Hello!")] ]}
                (mkScript [] [] []) [])
       (mkState {[ lit "s1" := [mkTurn (lit "user") (lit "Hi");
                                mkTurn (lit "assistant") (lit "Hello!")] ]}
                (mkScript [] [] []) [])
       (lit "Bye") ltac:(vm_compute; reflexivity)))).
Defined.

(** C10: on every call that resolves its input, the history of the payload
    ends with the assistant turn, whose content is the payload's
    [gemini_text] stripped: the two differ by the whitespace around the
    reply and by nothing else, and there are calls on which they do
    differ. *)
Theorem agent_chat_reply_is_stored_stripped :
  (forall `{ext : Collaborators World} (session_id : str)
          (request : Request) (st st1 : State) (input_text : str),
     resolve_input request st = (st1, Ok (Resolved input_text)) ->
     exists st' resp,
       agent_chat session_id request st = (st', Ok resp)
       /\ last (history resp)
          = Some (mkTurn (lit "assistant") (strip (gemini_text resp)))
       /\ stripped_of (gemini_text resp) (strip (gemini_text resp))
       /\ get_chat_history (chat_histories st') session_id = history resp)
  /\ (exists st' resp stored,
        agent_chat (ext := scripted) (lit "s1") (json_request (lit "Hello"))
          (fresh (mkScript [] [Ok (says (lit " Hi there! "))] [Ok (lit "a.mp3")]))
        = (st', Ok resp)
        /\ last (history resp) = Some stored
        /\ content stored <> gemini_text resp).
Proof.
  split.
  - intros World ext session_id request st st1 input_text Hres.
    destruct (agent_chat_turn session_id _ _ _ _ Hres)
      as (st5 & urls & _ & Hstore & Hrun).
    eexists _, _. split; [exact Hrun|]. simpl.
    split; [by rewrite last_app|].
    split; [apply strip_spec|].
    rewrite Hstore. simpl. apply history_after_turn.
  - eexists _, _, _. split; [vm_compute; reflexivity|].
    split; [reflexivity|]. vm_compute. discriminate.
Qed.

Lemma agent_chat_reply_is_stored_stripped_witness :
  exists st' resp,
    agent_chat (ext := scripted) (lit "s1") (json_request (lit "Hello"))
      (fresh (mkScript [] [Ok (says (lit " Hi there! "))] [Ok (lit "a.mp3")]))
    = (st', Ok resp)
    /\ last (history resp)
       = Some (mkTurn (lit "assistant") (strip (gemini_text resp)))
    /\ stripped_of (gemini_text resp) (strip (gemini_text resp))
    /\ get_chat_history (chat_histories st') (lit "s1") = history resp.
Proof.
  eapply (proj1 agent_chat_reply_is_stored_stripped Script scripted).
  vm_compute. reflexivity.
Defined.

(** C8, as the specification states it, fails when an early call to the
    synthesiser raises: the reply has 7000 characters and the synthesiser is
    called once, on the first chunk only, because the exception leaves the
    loop. *)
Lemma synthesis_stops_at_first_failure :
  exists st' resp,
    agent_chat (ext := scripted) (lit "s1") (json_request (lit "Hello"))
      (fresh (mkScript [] [Ok (says long_reply)] [Raise exhausted]))
    = (st', Ok resp)
    /\ length (gemini_text resp) = 7 * 1000
    /\ synthesized (calls st') = [take 3000 long_reply]
    /\ length (synthesized (calls st')) <> 3.
Proof.
  eexists _, _. split; [vm_compute; reflexivity|].
  split; [vm_compute; reflexivity|].
  split; [vm_compute; reflexivity|].
  vm_compute. discriminate.
Qed.

Lemma chunk_text_7000 (reply : str) :
  length reply = 7 * 1000 ->
  chunk_text reply MAX_LEN =
    [slice reply 0 3000; slice reply 3000 (2 * 3000);
     slice reply (2 * 3000) (3 * 3000)]
  /\ length (slice reply 0 3000) = 3000
  /\ length (slice reply 3000 (2 * 3000)) = 3000
  /\ length (slice reply (2 * 3000) (3 * 3000)) = 1000.
Proof.
  intros Hlen.
  assert (Pos.to_nat MAX_LEN = 3000) as Hmax by (unfold MAX_LEN; lia).
  split.
  - rewrite chunk_text_windows, Hlen, Hmax.
    replace (range_len (7 * 1000) 3000) with 3 by (vm_compute; reflexivity).
    unfold slice. cbn [seq map].
    repeat f_equal; lia.
  - unfold slice. rewrite !length_take, !length_drop, Hlen. lia.
Qed.

(** One round of the loop of lines 273-279. *)
Lemma synthesize_chunks_cons `{ext : Collaborators World}
    (chunk : str) (rest audio_urls : list str) (st : State) :
  synthesize_chunks (chunk :: rest) audio_urls st =
    let logged := calls st ++ [CallSynthesize chunk VOICE_ID] in
    match text_to_speech (world st) chunk VOICE_ID with
    | (w, Ok audio_file) =>
        synthesize_chunks rest (audio_urls ++ [audio_file])
          (mkState (chat_histories st) w logged)
    | (w, Raise e) => (mkState (chat_histories st) w logged, Raise e)
    end.
Proof.
  simpl. unfold bind at 1, external.
  by destruct (text_to_speech (world st) chunk VOICE_ID) as [w [url|e]].
Qed.

(** C8 (amended): a reply of exactly 7000 characters has the three chunks
    of 3000, 3000 and 1000 characters; the synthesiser is called on them one
    at a time and in this order, until a call fails: the calls made are the
    first [n] of the three, with [n] one when the first call raises, two
    when the first succeeds and the second raises, and three when the first
    two succeed; when all three succeed the payload lists their three audio
    references in the order of the chunks. *)
Theorem agent_chat_synthesis_of_7000 `{ext : Collaborators World}
    (session_id : str) (request : Request) (st st1 st3 : State)
    (input_text reply : str) :
  resolve_input request st = (st1, Ok (Resolved input_text)) ->
  generate_reply session_id (appended st1 session_id (lit "user") input_text)
    = (st3, Ok reply) ->
  length reply = 7 * 1000 ->
  let c1 := slice reply 0 3000 in
  let c2 := slice reply 3000 (2 * 3000) in
  let c3 := slice reply (2 * 3000) (3 * 3000) in
  chunk_text reply MAX_LEN = [c1; c2; c3]
  /\ length c1 = 3000 /\ length c2 = 3000 /\ length c3 = 1000
  /\ exists st' resp n,
       agent_chat session_id request st = (st', Ok resp)
       /\ gemini_text resp = reply
       /\ 1 <= n <= 3
       /\ calls st' = calls st3 ++ synthesis_calls (take n [c1; c2; c3])
       /\ (forall w1 u1 w2 u2,
             text_to_speech (world st3) c1 VOICE_ID = (w1, Ok u1) ->
             text_to_speech w1 c2 VOICE_ID = (w2, Ok u2) ->
             n = 3)
       /\ (forall w1 u1 w2 u2 w3 u3,
             text_to_speech (world st3) c1 VOICE_ID = (w1, Ok u1) ->
             text_to_speech w1 c2 VOICE_ID = (w2, Ok u2) ->
             text_to_speech w2 c3 VOICE_ID = (w3, Ok u3) ->
             audio_urls resp = [u1; u2; u3])
       /\ (forall w1 e,
             text_to_speech (world st3) c1 VOICE_ID = (w1, Raise e) ->
             n = 1)
       /\ (forall w1 u1 w2 e,
             text_to_speech (world st3) c1 VOICE_ID = (w1, Ok u1) ->
             text_to_speech w1 c2 VOICE_ID = (w2, Raise e) ->
             n = 2).
Proof.
  intros Hres Hgen Hlen c1 c2 c3.
  destruct (chunk_text_7000 reply Hlen) as (Hchunks & Hc1 & Hc2 & Hc3).
  fold c1 c2 c3 in Hchunks, Hc1, Hc2, Hc3. clearbody c1 c2 c3.
  repeat (split; [assumption|]).
  pose proof (agent_chat_resolved session_id request st st1 input_text
                st3 reply) as Hrun.
  pose proof (synthesize_run reply
                (appended st3 session_id (lit "assistant") reply)) as Hsyn.
  rewrite Hchunks, !synthesize_chunks_cons in Hsyn. cbv zeta in Hsyn.
  simpl world in Hsyn. simpl calls in Hsyn.
  destruct (text_to_speech (world st3) c1 VOICE_ID) as [w1 [u1|e1]] eqn:E1.
  - rewrite !synthesize_chunks_cons in Hsyn. cbv zeta in Hsyn.
    simpl world in Hsyn. simpl calls in Hsyn.
    destruct (text_to_speech w1 c2 VOICE_ID) as [w2 [u2|e2]] eqn:E2.
    + rewrite !synthesize_chunks_cons in Hsyn. cbv zeta in Hsyn.
      simpl world in Hsyn. simpl calls in Hsyn.
      destruct (text_to_speech w2 c3 VOICE_ID) as [w3 [u3|e3]] eqn:E3;
        simpl in Hsyn; specialize (Hrun _ _ Hres Hgen Hsyn);
        eexists _, _, 3; (split; [exact Hrun|]); simpl;
        (split; [reflexivity|]); (split; [lia|]);
        (split; [by rewrite <- !app_assoc|]); (split; [reflexivity|]);
        (split; [|split]); intros; congruence.
    + simpl in Hsyn. specialize (Hrun _ _ Hres Hgen Hsyn).
      eexists _, _, 2. split; [exact Hrun|]. simpl.
      split; [reflexivity|]. split; [lia|].
      split; [by rewrite <- !app_assoc|].
      split; [|split; [|split]]; intros; congruence.
  - simpl in Hsyn. specialize (Hrun _ _ Hres Hgen Hsyn).
    eexists _, _, 1. split; [exact Hrun|]. simpl.
    split; [reflexivity|]. split; [lia|]. split; [reflexivity|].
    split; [|split; [|split]]; intros; congruence.
Qed.

Lemma agent_chat_synthesis_of_7000_witness :
  exists st' resp,
    agent_chat (ext := scripted) (lit "s1") (json_request (lit "Hello"))
      (fresh (mkScript [] [Ok (says long_reply)]
                [Ok (lit "a.mp3"); Ok (lit "b.mp3"); Ok (lit "c.mp3")]))
    = (st', Ok resp)
    /\ map length (synthesized (calls st')) = [3000; 3000; 1000]
    /\ audio_urls resp = [lit "a.mp3"; lit "b.mp3"; lit "c.mp3"].
Proof.
  destruct (agent_chat_synthesis_of_7000 (ext := scripted) (lit "s1")
              (json_request (lit "Hello"))
              (fresh (mkScript [] [Ok (says long_reply)]
                        [Ok (lit "a.mp3"); Ok (lit "b.mp3"); Ok (lit "c.mp3")]))
              (fresh (mkScript [] [Ok (says long_reply)]
                        [Ok (lit "a.mp3"); Ok (lit "b.mp3"); Ok (lit "c.mp3")]))
              (mkState {[ lit "s1" := [mkTurn (lit "user") (lit "Hello")] ]}
                 (mkScript [] []
                    [Ok (lit "a.mp3"); Ok (lit "b.mp3"); Ok (lit "c.mp3")])
                 [CallGenerate GEMINI_MODEL
                    (build_prompt [mkTurn (lit "user") (lit "Hello")])])
              (lit "Hello") long_reply
              ltac:(vm_compute; reflexivity)
              ltac:(vm_compute; reflexivity)
              ltac:(vm_compute; reflexivity))
    as (_ & _ & _ & _ & st' & resp & n & Hrun & _ & _ & Hcalls & Hn & Hurls
        & _ & _).
  exists st', resp. split; [exact Hrun|].
  specialize (Hn _ _ _ _ eq_refl eq_refl). subst n.
  split.
  - rewrite Hcalls. vm_compute. reflexivity.
  - exact (Hurls _ _ _ _ _ _ eq_refl eq_refl eq_refl).
Defined.

(** * Further properties of the code *)

(** ** Stripping *)

Lemma lstrip_fixed (s : str) :
  (forall c, head s = Some c -> isspace c = false) -> lstrip s = s.
Proof.
  destruct s as [|c s]; [done|]. intros H. simpl. by rewrite (H c).
Qed.

Lemma lstrip_spaces (l s : str) :
  Forall (fun c => isspace c = true) l -> lstrip (l ++ s) = lstrip s.
Proof.
  induction 1 as [|c l Hc _ IH]; [done|]. simpl. by rewrite Hc.
Qed.

Lemma lstrip_all_spaces (l : str) :
  Forall (fun c => isspace c = true) l -> lstrip l = [].
Proof.
  intros Hl. rewrite <- (app_nil_r l). by rewrite lstrip_spaces.
Qed.

Lemma rstrip_fixed (s : str) :
  (forall c, last s = Some c -> isspace c = false) -> rstrip s = s.
Proof.
  intros H. unfold rstrip. rewrite lstrip_fixed.
  - apply reverse_involutive.
  - intros c. rewrite head_reverse. apply H.
Qed.

Lemma rstrip_spaces (s r : str) :
  Forall (fun c => isspace c = true) r -> rstrip (s ++ r) = rstrip s.
Proof.
  intros Hr. unfold rstrip. rewrite reverse_app, lstrip_spaces; [done|].
  by apply Forall_reverse.
Qed.

(** X1: [strip] is characterised by its specification: the only text that
    is [s] without its leading and trailing whitespace is [strip s]. *)
Theorem strip_unique (s t : str) : stripped_of s t -> t = strip s.
Proof.
  intros (l & r & -> & Hl & Hr & Hhd & Hlast). unfold strip.
  rewrite lstrip_spaces by done.
  destruct t as [|c t].
  - simpl. rewrite lstrip_all_spaces by done. reflexivity.
  - rewrite lstrip_fixed.
    + rewrite rstrip_spaces by done. symmetry. by apply rstrip_fixed.
    + intros d Hd. apply Hhd. exact Hd.
Qed.

Lemma strip_unique_witness : lit "a b" = strip (lit "  a b ").
Proof.
  apply (strip_unique (lit "  a b ") (lit "a b")).
  exists (lit "  "), (lit " ").
  split; [reflexivity|].
  split; [repeat constructor|]. split; [repeat constructor|].
  split; intros c [= <-]; reflexivity.
Defined.

Lemma strip_strip (s : str) : strip (strip s) = strip s.
Proof.
  destruct (strip_spec s) as (_ & _ & _ & _ & _ & Hhd & Hlast).
  unfold strip at 1. rewrite (lstrip_fixed _ Hhd). by apply rstrip_fixed.
Qed.

(** X2: stripping twice is stripping once, so a content read back from the
    store and appended again is stored unchanged. *)
Theorem strip_idempotent (h : Store) (session_id role s : str) :
  strip (strip s) = strip s
  /\ last (get_chat_history
             (append_to_history h session_id role (strip s)) session_id)
     = Some (mkTurn role (strip s)).
Proof.
  split; [apply strip_strip|].
  by rewrite get_append_same, last_snoc, strip_strip.
Qed.

(** ** The chunker, for any [max_len] *)


(** ** The session store *)

Lemma lookup_append_same (h : Store) (session_id role content : str) :
  append_to_history h session_id role content !! session_id
  = Some (get_chat_history h session_id ++ [mkTurn role (strip content)]).
Proof.
  pose proof (get_append_same h session_id role content) as Hget.
  unfold get_chat_history at 1 in Hget.
  unfold append_to_history in *. rewrite lookup_insert_eq in *.
  simpl in Hget. by rewrite Hget.
Qed.

(** X4: sessions are independent: appends to two different sessions give
    the same store in either order. *)
Theorem append_to_history_commutes (h : Store)
    (s1 r1 c1 s2 r2 c2 : str) :
  s1 <> s2 ->
  append_to_history (append_to_history h s1 r1 c1) s2 r2 c2
  = append_to_history (append_to_history h s2 r2 c2) s1 r1 c1.
Proof.
  intros Hne. apply map_eq. intros i.
  destruct (decide (i = s1)) as [->|Hi1]; [|destruct (decide (i = s2)) as [->|Hi2]].
  - rewrite lookup_append_other, !lookup_append_same by done.
    by rewrite get_append_other.
  - rewrite lookup_append_same, lookup_append_other, lookup_append_same by done.
    by rewrite get_append_other.
  - by rewrite !lookup_append_other.
Qed.

Lemma append_to_history_commutes_witness :
  append_to_history
    (append_to_history ∅ (lit "a") (lit "user") (lit "Hi"))
    (lit "b") (lit "user") (lit "Yo")
  = append_to_history
      (append_to_history ∅ (lit "b") (lit "user") (lit "Yo"))
      (lit "a") (lit "user") (lit "Hi").
Proof.
  apply (append_to_history_commutes ∅ (lit "a") (lit "user") (lit "Hi")
           (lit "b") (lit "user") (lit "Yo")).
  discriminate.
Defined.

Lemma dom_append_to_history (h : Store) (session_id role content : str) :
  dom (append_to_history h session_id role content) = {[session_id]} ∪ dom h.
Proof.
  unfold append_to_history. rewrite dom_insert_L.
  destruct (h !! session_id) eqn:Hh; [done|].
  rewrite dom_insert_L. set_solver.
Qed.

(** X5: the store only grows: after a sequence of appends the sessions are
    those that existed before and those the appends name, and every
    session's earlier history is the beginning of its later one. *)
Theorem appends_only_grow (h : Store) (ops : list (str * str * str)) :
  dom (appends h ops) = dom h ∪ list_to_set (map (fun op => op.1.1) ops)
  /\ forall session_id,
       get_chat_history h session_id
         `prefix_of` get_chat_history (appends h ops) session_id.
Proof.
  split.
  - revert h. induction ops as [|[[sid role] content] ops IH]; intros h.
    + simpl. set_solver.
    + unfold appends. simpl.
      fold (appends (append_to_history h sid role content) ops).
      rewrite IH, dom_append_to_history. set_solver.
  - intros session_id. rewrite get_appends. by apply prefix_app_r.
Qed.

(** ** Reading the request *)

(** X6: audio bytes only ever come from the [file] part of a multipart form
    whose upload was read without an exception: a JSON body or any other
    content type never yields audio. *)
Theorem handle_input_audio_source (request : Request) (audio : bytes) :
  (handle_input request).1 = Some audio ->
  startswith (default [] (content_type_header request))
             (lit "multipart/form-data") = true
  /\ exists form,
       form_data request = Ok form
       /\ form !! lit "file" = Some (FormUpload (Ok audio)).
Proof.
  unfold handle_input.
  destruct (startswith _ (lit "multipart/form-data")) eqn:Hmulti.
  - destruct (form_data request) as [form|e]; [|discriminate].
    intros H. split; [done|]. exists form. split; [done|].
    destruct (form !! lit "file") as [[s|[b|e]]|] eqn:Hfile;
      destruct (form !! lit "text") as [[t|rd]|]; simpl in H; congruence.
  - destruct (startswith _ (lit "application/json")); [|discriminate].
    destruct (json_body request) as [[| | | | |body]|e]; try discriminate.
    destruct (dict_get body (lit "text")) as [[| | |t| |]|]; discriminate.
Qed.

Lemma handle_input_audio_source_witness :
  exists form,
    form_data (audio_request [Byte.x52]) = Ok form
    /\ form !! lit "file" = Some (FormUpload (Ok [Byte.x52])).
Proof.
  apply (handle_input_audio_source (audio_request [Byte.x52]) [Byte.x52]).
  vm_compute. reflexivity.
Defined.

(** A text read from the request is already stripped, whichever body it
    came from. *)
Lemma handle_input_text_stripped (request : Request) (input_text : str) :
  (handle_input request).2 = Some input_text ->
  strip input_text = input_text.
Proof.
  unfold handle_input.
  destruct (startswith _ (lit "multipart/form-data")).
  - destruct (form_data request) as [form|e]; [|discriminate].
    destruct (form !! lit "file") as [[s|[b|e]]|];
      destruct (form !! lit "text") as [[t|rd]|]; simpl;
      try discriminate; intros [= <-]; apply strip_strip.
  - destruct (startswith _ (lit "application/json")); [|discriminate].
    destruct (json_body request) as [[| | | | |body]|e]; try discriminate.
    destruct (dict_get body (lit "text")) as [[| | |t| |]|];
      try discriminate; intros [= <-]; [apply strip_strip|reflexivity].
Qed.

(** X8: when a request carries audio, the text field plays no part: two
    requests with the same non-empty audio are handled alike, whatever
    else they hold. *)
Theorem agent_chat_audio_overrides_text `{ext : Collaborators World}
    (session_id : str) (request1 request2 : Request) (st : State)
    (audio : bytes) :
  (handle_input request1).1 = Some audio ->
  (handle_input request2).1 = Some audio ->
  audio <> [] ->
  agent_chat session_id request1 st = agent_chat session_id request2 st.
Proof.
  intros H1 H2 Hne.
  pose proof (resolve_input_audio request1 st audio H1 Hne) as R1.
  pose proof (resolve_input_audio request2 st audio H2 Hne) as R2.
  unfold agent_chat, try_except, bind. rewrite R1, R2. reflexivity.
Qed.

Lemma agent_chat_audio_overrides_text_witness :
  agent_chat (ext := scripted) (lit "s1") (audio_request [Byte.x52])
    (fresh (mkScript [Ok (Some (lit "spoken"))] [Ok (says (lit "Hi"))] []))
  = agent_chat (ext := scripted) (lit "s1")
      (mkRequest (Some (lit "multipart/form-data"))
         (Ok (<[lit "text" := FormStr (lit "typed")]>
                {[ lit "file" := FormUpload (Ok [Byte.x52]) ]}))
         (Raise exhausted))
      (fresh (mkScript [Ok (Some (lit "spoken"))] [Ok (says (lit "Hi"))] [])).
Proof.
  apply (agent_chat_audio_overrides_text (ext := scripted) (lit "s1")
           _ _ _ [Byte.x52]).
  - vm_compute. reflexivity.
  - vm_compute. reflexivity.
  - discriminate.
Defined.

(** ** What one call of the handler does *)

Section Outcome.
Context {World : Type} {ext : Collaborators World}.
Implicit Types (st : @State World) (session_id : str) (request : Request).

(** Resolving the input calls nothing, or the transcriber once on the
    audio of the request. *)
Lemma resolve_input_cases request st st1 res :
  resolve_input request st = (st1, Ok res) ->
  (st1 = st /\ falsy (handle_input request).1
   /\ res = classify (handle_input request).2)
  \/ (exists audio,
        (handle_input request).1 = Some audio /\ audio <> []
        /\ st1 = mkState (chat_histories st) (transcribe (world st) audio).1
                   (calls st ++ [CallTranscribe audio])
        /\ res = match (transcribe (world st) audio).2 with
                 | Ok text => classify text
                 | Raise _ => TranscriptionFailed
                 end).
Proof.
  intros Hres.
  destruct ((handle_input request).1) as [[|b audio]|] eqn:Hbytes.
  - rewrite resolve_input_text in Hres by (rewrite Hbytes; by right).
    injection Hres as <- <-. left. split; [done|]. split; [by right|done].
  - rewrite (resolve_input_audio _ _ (b :: audio)) in Hres by done.
    injection Hres as <- <-. right. by exists (b :: audio).
  - rewrite resolve_input_text in Hres by (rewrite Hbytes; by left).
    injection Hres as <- <-. left. split; [done|]. split; [by left|done].
Qed.

(** Every call ends in one of two ways: early, with a fixed reply and the
    store as it was, or after a whole turn. *)
Lemma agent_chat_outcome session_id request st :
  exists st1 res,
    resolve_input request st = (st1, Ok res)
    /\ chat_histories st1 = chat_histories st
    /\ ((res = TranscriptionFailed \/ res = NoInput)
        /\ agent_chat session_id request st =
             (st1, Ok (mkResponse true (early_reply res) []
                         (get_chat_history (chat_histories st) session_id)))
        \/ exists input_text st5 urls,
             res = Resolved input_text
             /\ let before := get_chat_history (chat_histories st) session_id in
                let prompt :=
                  build_prompt
                    (before ++ [mkTurn (lit "user") (strip input_text)]) in
                let answer := generate_content (world st1) GEMINI_MODEL prompt in
                let reply := reply_or_fallback answer.2 in
                let st4 :=
                  mkState
                    (append_to_history
                       (append_to_history (chat_histories st) session_id
                          (lit "user") input_text)
                       session_id (lit "assistant") reply)
                    answer.1 (calls st1 ++ [CallGenerate GEMINI_MODEL prompt]) in
                synthesize reply st4 = (st5, Ok urls)
                /\ chat_histories st5 = chat_histories st4
                /\ agent_chat session_id request st =
                     (st5, Ok (mkResponse true reply urls
                                 (before ++
                                    [mkTurn (lit "user") (strip input_text);
                                     mkTurn (lit "assistant") (strip reply)])))).
Proof.
  destruct (resolve_input request st) as [st1 r] eqn:Hres.
  destruct (resolve_input_inv _ _ _ _ Hres) as [Hstore [res ->]].
  exists st1, res. split; [done|]. split; [done|].
  destruct res as [| |input_text].
  - left. split; [by left|].
    apply (agent_chat_early _ _ _ _ _ Hres). by left.
  - left. split; [by right|].
    apply (agent_chat_early _ _ _ _ _ Hres). by right.
  - right. destruct (agent_chat_turn session_id _ _ _ _ Hres)
      as (st5 & urls & Hsyn & Hstore5 & Hrun).
    by exists input_text, st5, urls.
Qed.

(** What one call does to the store: other sessions are untouched, and the
    session of the call keeps its history or gains a user turn and an
    assistant turn, both stripped. *)
Lemma agent_chat_store session_id request st :
  (forall other, other <> session_id ->
     chat_histories (agent_chat session_id request st).1 !! other
     = chat_histories st !! other)
  /\ (chat_histories (agent_chat session_id request st).1 = chat_histories st
      \/ exists u a,
           get_chat_history
             (chat_histories (agent_chat session_id request st).1) session_id
           = get_chat_history (chat_histories st) session_id
               ++ [mkTurn (lit "user") (strip u);
                   mkTurn (lit "assistant") (strip a)]).
Proof.
  destruct (agent_chat_outcome session_id request st)
    as (st1 & res & _ & Hstore1 & [[_ Hrun] | Hturn]).
  - rewrite Hrun. simpl. rewrite Hstore1. split; [done|by left].
  - destruct Hturn as (input_text & st5 & urls & _ & Hturn).
    cbv zeta in Hturn. destruct Hturn as (_ & Hstore5 & Hrun).
    rewrite Hrun. simpl. rewrite Hstore5. simpl. split.
    + intros other Hne. by rewrite !lookup_append_other.
    + right. eexists _, _. apply history_after_turn.
Qed.

(** A property of histories that appending a stripped user turn and a
    stripped assistant turn keeps, is kept by serving requests. *)
Lemma serve_invariant (P : list Turn -> Prop) :
  (forall turns u a,
     P turns ->
     P (turns ++ [mkTurn (lit "user") (strip u);
                  mkTurn (lit "assistant") (strip a)])) ->
  forall requests st,
    (forall session_id, P (get_chat_history (chat_histories st) session_id)) ->
    forall session_id,
      P (get_chat_history (chat_histories (serve requests st)) session_id).
Proof.
  intros Hstep requests.
  induction requests as [|[sid request] requests IH]; intros st HP; [done|].
  unfold serve. simpl. fold (serve requests (agent_chat sid request st).1).
  apply IH. intros session_id.
  destruct (agent_chat_store sid request st) as [Hframe Hgrow].
  destruct (decide (session_id = sid)) as [->|Hne].
  - destruct Hgrow as [-> | (u & a & ->)]; [apply HP|]. apply Hstep, HP.
  - unfold get_chat_history. rewrite Hframe by done. apply HP.
Qed.

End Outcome.

Lemma alternating_snoc (turns : list Turn) (u a : str) :
  (alternating turns ->
   alternating (turns ++ [mkTurn (lit "user") u; mkTurn (lit "assistant") a]))
  /\ (forall t, alternating (t :: turns) ->
        alternating
          (t :: turns ++ [mkTurn (lit "user") u; mkTurn (lit "assistant") a])).
Proof.
  induction turns as [|t' turns [IH1 IH2]].
  - split; [done|]. intros t [].
  - split; [apply IH2|].
    intros t (Hu & Ha & Hrest). simpl. repeat split; [done|done|].
    by apply IH1.
Qed.

(** X9: a call for one session never touches another session: its history
    and even its presence in the store are as before. *)
Theorem agent_chat_other_sessions `{ext : Collaborators World}
    (session_id other : str) (request : Request) (st : State) :
  other <> session_id ->
  chat_histories (agent_chat session_id request st).1 !! other
  = chat_histories st !! other.
Proof. intros Hne. by apply agent_chat_store. Qed.

Lemma agent_chat_other_sessions_witness :
  chat_histories
    (agent_chat (ext := scripted) (lit "s1") (json_request (lit "Hello"))
       (fresh (mkScript [] [Ok (says (lit "Hi"))] [Ok (lit "a.mp3")]))).1
    !! lit "s2"
  = None.
Proof.
  apply (agent_chat_other_sessions (ext := scripted) (lit "s1") (lit "s2")).
  discriminate.
Defined.

(** X10: the history a call returns is the history the store holds for the
    session afterwards, and it is the earlier history, unchanged, or the
    earlier history followed by exactly two turns: the user's, then the
    assistant's with the stripped reply of the payload. *)
Theorem agent_chat_history_growth `{ext : Collaborators World}
    (session_id : str) (request : Request) (st : State) :
  exists st' resp,
    agent_chat session_id request st = (st', Ok resp)
    /\ history resp = get_chat_history (chat_histories st') session_id
    /\ (history resp = get_chat_history (chat_histories st) session_id
        /\ chat_histories st' = chat_histories st
        \/ exists input_text,
             history resp =
               get_chat_history (chat_histories st) session_id
                 ++ [mkTurn (lit "user") (strip input_text);
                     mkTurn (lit "assistant") (strip (gemini_text resp))]).
Proof.
  destruct (agent_chat_outcome session_id request st)
    as (st1 & res & _ & Hstore1 & [[_ Hrun] | Hturn]).
  - eexists _, _. split; [exact Hrun|]. simpl. rewrite Hstore1.
    split; [done|]. by left.
  - destruct Hturn as (input_text & st5 & urls & _ & Hturn).
    cbv zeta in Hturn. destruct Hturn as (_ & Hstore5 & Hrun).
    eexists _, _. split; [exact Hrun|]. simpl. rewrite Hstore5. simpl.
    split; [by rewrite history_after_turn|]. right. by exists input_text.
Qed.

(** X11: roles alternate: if every session's history alternates between
    user and assistant turns, starting with a user turn and ending with an
    assistant turn, it still does after any sequence of calls of the
    handler, whatever the requests and however the collaborators fail. *)
Theorem serve_keeps_alternation `{ext : Collaborators World}
    (requests : list (str * Request)) (st : State) :
  (forall session_id,
     alternating (get_chat_history (chat_histories st) session_id)) ->
  forall session_id,
    alternating (get_chat_history (chat_histories (serve requests st))
                   session_id).
Proof.
  apply (serve_invariant alternating).
  intros turns u a. apply alternating_snoc.
Qed.

Lemma serve_keeps_alternation_witness :
  alternating
    (get_chat_history
       (chat_histories
          (serve (ext := scripted)
             [(lit "s1", json_request (lit "Hello"));
              (lit "s1", json_request (lit "   "));
              (lit "s1", json_request (lit "Bye"))]
             (fresh (mkScript [] [Ok (says (lit "Hi")); Raise exhausted] []))))
       (lit "s1")).
Proof.
  apply (serve_keeps_alternation (ext := scripted)).
  intros session_id. exact I.
Defined.

(** X12: every content the handler stores is stripped: if all stored
    contents are free of leading and trailing whitespace, they still are
    after any sequence of calls. *)
Theorem serve_keeps_contents_stripped `{ext : Collaborators World}
    (requests : list (str * Request)) (st : State) :
  (forall session_id,
     Forall (fun turn => strip (content turn) = content turn)
            (get_chat_history (chat_histories st) session_id)) ->
  forall session_id,
    Forall (fun turn => strip (content turn) = content turn)
           (get_chat_history (chat_histories (serve requests st)) session_id).
Proof.
  apply (serve_invariant
           (Forall (fun turn => strip (content turn) = content turn))).
  intros turns u a Hturns. apply Forall_app. split; [done|].
  repeat constructor; simpl; apply strip_strip.
Qed.

Lemma serve_keeps_contents_stripped_witness :
  Forall (fun turn => strip (content turn) = content turn)
    (get_chat_history
       (chat_histories
          (serve (ext := scripted)
             [(lit "s1", json_request (lit " Hello "))]
             (fresh (mkScript [] [Ok (says (lit " Hi "))] []))))
       (lit "s1")).
Proof.
  apply (serve_keeps_contents_stripped (ext := scripted)).
  intros session_id. constructor.
Defined.

(** ** The calls one request causes *)

Lemma chunk_text_nonempty (text : str) (max_len : positive) :
  Forall (fun chunk => 0 < length chunk) (chunk_text text max_len).
Proof.
  apply Forall_lookup. intros k chunk Hk.
  assert (k < length (chunk_text text max_len)) as Hlt
    by (eapply lookup_lt_Some; eauto).
  rewrite chunk_text_windows, length_map, length_seq in Hlt.
  apply chunk_text_lookup in Hk. subst chunk.
  unfold slice. rewrite length_take, length_drop.
  destruct (length text) as [|m]; [simpl in Hlt; lia|]. simpl in Hlt.
  pose proof (Nat.Div0.mul_div_le m (Pos.to_nat max_len)). nia.
Qed.

(** X13: the collaborators are called in a fixed order: first the
    transcriber, at most once and only on non-empty audio; then the model,
    at most once and always the model [gemini-1.5-flash]; then the
    synthesiser, on the first chunks of the reply in order.  The
    synthesiser is never called when the model was not. *)
Theorem agent_chat_call_order `{ext : Collaborators World}
    (session_id : str) (request : Request) (st : State) :
  exists st' resp stt llm n,
    agent_chat session_id request st = (st', Ok resp)
    /\ calls st' =
         calls st ++ stt ++ llm
           ++ synthesis_calls (take n (chunk_text (gemini_text resp) MAX_LEN))
    /\ (stt = [] \/ exists audio, audio <> [] /\ stt = [CallTranscribe audio])
    /\ (llm = [] /\ n = 0
        \/ exists prompt, llm = [CallGenerate GEMINI_MODEL prompt]).
Proof.
  destruct (agent_chat_outcome session_id request st)
    as (st1 & res & Hres & _ & Hout).
  assert (exists stt,
            calls st1 = calls st ++ stt
            /\ (stt = [] \/ exists audio, audio <> [] /\ stt = [CallTranscribe audio]))
    as (stt & Hstt & Hshape).
  { destruct (resolve_input_cases _ _ _ _ Hres)
      as [(-> & _) | (audio & _ & Hne & -> & _)].
    - exists []. split; [by rewrite app_nil_r|by left].
    - exists [CallTranscribe audio]. split; [done|]. right. by exists audio. }
  destruct Hout as [[_ Hrun] | (input_text & st5 & urls & _ & Hturn)].
  - eexists st1, _, stt, [], 0. split; [exact Hrun|].
    split; [simpl; by rewrite Hstt, !app_nil_r|]. split; [done|]. by left.
  - cbv zeta in Hturn. destruct Hturn as (Hsyn & _ & Hrun).
    apply synthesize_calls in Hsyn as (_ & n & Hcalls & _).
    eexists st5, _, stt, [_], n. split; [exact Hrun|].
    split; [|split; [done|right; by eexists]].
    rewrite Hcalls. simpl. by rewrite Hstt, <- !app_assoc.
Qed.

(** X14: the synthesiser is never given more than 3000 characters, nor an
    empty text, and always the voice [en-UK-peter]. *)
Theorem agent_chat_synthesis_input `{ext : Collaborators World}
    (session_id : str) (request : Request) (st : State) :
  exists st' resp log,
    agent_chat session_id request st = (st', Ok resp)
    /\ calls st' = calls st ++ log
    /\ Forall (fun c => match c with
                        | CallSynthesize text voice_id =>
                            0 < length text <= 3000 /\ voice_id = VOICE_ID
                        | _ => True
                        end) log.
Proof.
  destruct (agent_chat_outcome session_id request st)
    as (st1 & res & Hres & _ & Hout).
  assert (exists stt,
            calls st1 = calls st ++ stt
            /\ Forall (fun c => match c with
                                | CallSynthesize text voice_id =>
                                    0 < length text <= 3000 /\ voice_id = VOICE_ID
                                | _ => True
                                end) stt)
    as (stt & Hstt & Hshape).
  { destruct (resolve_input_cases _ _ _ _ Hres)
      as [(-> & _) | (audio & _ & Hne & -> & _)].
    - exists []. split; [by rewrite app_nil_r|constructor].
    - exists [CallTranscribe audio]. split; [done|]. by repeat constructor. }
  destruct Hout as [[_ Hrun] | (input_text & st5 & urls & _ & Hturn)].
  - eexists st1, _, stt. split; [exact Hrun|]. by split.
  - cbv zeta in Hturn. destruct Hturn as (Hsyn & _ & Hrun).
    apply synthesize_calls in Hsyn as (_ & n & Hcalls & _).
    eexists st5, _, _. split; [exact Hrun|].
    split; [rewrite Hcalls; simpl; rewrite Hstt, <- !app_assoc; reflexivity|].
    apply Forall_app. split; [done|]. apply Forall_app. split; [by repeat constructor|].
    unfold synthesis_calls. apply Forall_fmap, Forall_take.
    pose proof (chunk_text_bounded (reply_or_fallback
      (generate_content (world st1) GEMINI_MODEL
         (build_prompt
            (get_chat_history (chat_histories st) session_id ++
             [mkTurn (lit "user") (strip input_text)]))).2) MAX_LEN) as Hle.
    pose proof (chunk_text_nonempty (reply_or_fallback
      (generate_content (world st1) GEMINI_MODEL
         (build_prompt
            (get_chat_history (chat_histories st) session_id ++
             [mkTurn (lit "user") (strip input_text)]))).2) MAX_LEN) as Hpos.
    rewrite Forall_forall in Hle, Hpos.
    apply Forall_forall. intros chunk Hin.
    specialize (Hle _ Hin). specialize (Hpos _ Hin).
    simpl. unfold MAX_LEN in Hle. split; [lia|done].
Qed.

(** X15: the audio references come all or none: the payload lists one
    reference per chunk of its reply, or no reference at all. *)
Theorem agent_chat_audio_all_or_none `{ext : Collaborators World}
    (session_id : str) (request : Request) (st : State) :
  exists st' resp,
    agent_chat session_id request st = (st', Ok resp)
    /\ (audio_urls resp = []
        \/ length (audio_urls resp)
           = length (chunk_text (gemini_text resp) MAX_LEN)).
Proof.
  destruct (agent_chat_outcome session_id request st)
    as (st1 & res & _ & _ & [[_ Hrun] | (input_text & st5 & urls & _ & Hturn)]).
  - eexists _, _. split; [exact Hrun|]. by left.
  - cbv zeta in Hturn. destruct Hturn as (Hsyn & _ & Hrun).
    apply synthesize_calls in Hsyn as (_ & n & _ & _ & _ & Hurls).
    eexists _, _. split; [exact Hrun|]. simpl.
    destruct Hurls as [-> | [_ Hlen]]; [by left|by right].
Qed.

(** ** Edge cases of a turn *)

Lemma strip_all_spaces (s : str) :
  Forall (fun c => isspace c = true) s -> strip s = [].
Proof. intros Hs. unfold strip. by rewrite lstrip_all_spaces. Qed.

(** X16: a transcript that is not empty but holds only whitespace does not
    count as missing input: the turn goes on, and the user turn it stores
    has an empty content. *)
Theorem agent_chat_blank_transcript `{ext : Collaborators World}
    (session_id : str) (request : Request) (st : State)
    (audio : bytes) (text : str) :
  (handle_input request).1 = Some audio -> audio <> [] ->
  (transcribe (world st) audio).2 = Ok (Some text) ->
  text <> [] -> Forall (fun c => isspace c = true) text ->
  exists st' resp,
    agent_chat session_id request st = (st', Ok resp)
    /\ history resp =
         get_chat_history (chat_histories st) session_id
           ++ [mkTurn (lit "user") [];
               mkTurn (lit "assistant") (strip (gemini_text resp))].
Proof.
  intros Haudio Hne Hok Htext Hblank.
  pose proof (resolve_input_audio request st audio Haudio Hne) as Hres.
  rewrite Hok in Hres.
  replace (classify (Some text)) with (Resolved text) in Hres
    by (by destruct text).
  destruct (agent_chat_turn session_id _ _ _ _ Hres)
    as (st5 & urls & _ & _ & Hrun).
  eexists _, _. split; [exact Hrun|]. simpl.
  by rewrite (strip_all_spaces text Hblank).
Qed.

Lemma agent_chat_blank_transcript_witness :
  exists st' resp,
    agent_chat (ext := scripted) (lit "s1") (audio_request [Byte.x52])
      (fresh (mkScript [Ok (Some (lit "  "))] [Ok (says (lit "Hi"))] []))
    = (st', Ok resp)
    /\ history resp =
         [mkTurn (lit "user") [];
          mkTurn (lit "assistant") (strip (gemini_text resp))].
Proof.
  apply (agent_chat_blank_transcript (ext := scripted) (lit "s1")
           (audio_request [Byte.x52])
           (fresh (mkScript [Ok (Some (lit "  "))] [Ok (says (lit "Hi"))] []))
           [Byte.x52] (lit "  ")).
  - vm_compute. reflexivity.
  - discriminate.
  - reflexivity.
  - discriminate.
  - repeat constructor.
Defined.

(** X7: without audio, a request that carries a text is never transcribed,
    and the user turn it stores holds exactly the text read from the
    request, which is not empty. *)
Theorem agent_chat_text_stored_verbatim `{ext : Collaborators World}
    (session_id : str) (request : Request) (st : State) (input_text : str) :
  falsy (handle_input request).1 ->
  (handle_input request).2 = Some input_text -> input_text <> [] ->
  exists st' resp rest,
    agent_chat session_id request st = (st', Ok resp)
    /\ history resp =
         get_chat_history (chat_histories st) session_id
           ++ [mkTurn (lit "user") input_text;
               mkTurn (lit "assistant") (strip (gemini_text resp))]
    /\ calls st' =
         calls st
           ++ CallGenerate GEMINI_MODEL
                (build_prompt
                   (get_chat_history (chat_histories st) session_id
                      ++ [mkTurn (lit "user") input_text]))
              :: synthesis_calls rest.
Proof.
  intros Hbytes Htext Hne.
  pose proof (resolve_input_text request st Hbytes) as Hres.
  rewrite Htext in Hres.
  replace (classify (Some input_text)) with (Resolved input_text) in Hres
    by (by destruct input_text).
  destruct (agent_chat_turn session_id _ _ _ _ Hres)
    as (st5 & urls & Hsyn & _ & Hrun).
  rewrite (handle_input_text_stripped _ _ Htext) in Hsyn, Hrun.
  apply synthesize_calls in Hsyn as (_ & n & Hcalls & _).
  eexists _, _, _. split; [exact Hrun|]. split; [reflexivity|].
  rewrite Hcalls. simpl. by rewrite <- app_assoc.
Qed.

Lemma agent_chat_text_stored_verbatim_witness :
  exists st' resp rest,
    agent_chat (ext := scripted) (lit "s1") (json_request (lit "  Hello "))
      (fresh (mkScript [] [Ok (says (lit "Hi"))] [Ok (lit "a.mp3")]))
    = (st', Ok resp)
    /\ history resp =
         [mkTurn (lit "user") (lit "Hello");
          mkTurn (lit "assistant") (strip (gemini_text resp))]
    /\ calls st' =
         CallGenerate GEMINI_MODEL
           (build_prompt [mkTurn (lit "user") (lit "Hello")])
         :: synthesis_calls rest.
Proof.
  apply (agent_chat_text_stored_verbatim (ext := scripted) (lit "s1")
           (json_request (lit "  Hello "))
           (fresh (mkScript [] [Ok (says (lit "Hi"))] [Ok (lit "a.mp3")]))
           (lit "Hello")).
  - left. reflexivity.
  - vm_compute. reflexivity.
  - discriminate.
Defined.

(** X17: when the text read from the model is empty, the synthesiser is not
    called at all: the payload has an empty reply and no audio reference,
    and the assistant turn that is stored has an empty content. *)
Theorem agent_chat_empty_reply `{ext : Collaborators World}
    (session_id : str) (request : Request) (st st1 : State)
    (input_text : str) :
  resolve_input request st = (st1, Ok (Resolved input_text)) ->
  let before := get_chat_history (chat_histories st) session_id in
  let prompt :=
    build_prompt (before ++ [mkTurn (lit "user") (strip input_text)]) in
  reply_or_fallback (generate_content (world st1) GEMINI_MODEL prompt).2 = [] ->
  exists st',
    agent_chat session_id request st =
      (st', Ok (mkResponse true [] []
                  (before ++ [mkTurn (lit "user") (strip input_text);
                              mkTurn (lit "assistant") []])))
    /\ calls st' = calls st1 ++ [CallGenerate GEMINI_MODEL prompt].
Proof.
  intros Hres before prompt Hempty.
  destruct (agent_chat_turn session_id _ _ _ _ Hres)
    as (st5 & urls & Hsyn & _ & Hrun).
  fold before prompt in Hsyn, Hrun. rewrite Hempty in Hsyn, Hrun.
  apply synthesize_calls in Hsyn as (_ & n & Hcalls & Hle & _ & Hurls).
  rewrite chunk_text_nil in Hcalls, Hle, Hurls. simpl in Hle, Hurls.
  assert (urls = []) as -> by (destruct Hurls as [-> | [_ Hlen]];
                               [done | by destruct urls]).
  exists st5. split; [exact Hrun|].
  rewrite Hcalls, take_nil. simpl. by rewrite app_nil_r.
Qed.

Lemma agent_chat_empty_reply_witness :
  exists st',
    agent_chat (ext := scripted) (lit "s1") (json_request (lit "Hello"))
      (fresh (mkScript [] [Ok (says [])] [Ok (lit "a.mp3")]))
    = (st', Ok (mkResponse true [] []
                  [mkTurn (lit "user") (lit "Hello");
                   mkTurn (lit "assistant") []]))
    /\ calls st' =
         [CallGenerate GEMINI_MODEL
            (build_prompt [mkTurn (lit "user") (lit "Hello")])].
Proof.
  apply (agent_chat_empty_reply (ext := scripted) (lit "s1")
           (json_request (lit "Hello"))
           (fresh (mkScript [] [Ok (says [])] [Ok (lit "a.mp3")]))
           (fresh (mkScript [] [Ok (says [])] [Ok (lit "a.mp3")]))
           (lit "Hello")).
  - vm_compute. reflexivity.
  - vm_compute. reflexivity.
Defined.

(** ** The prompt *)

Lemma join_cons (sep p : str) (rest : list str) :
  rest <> [] -> join sep (p :: rest) = p ++ sep ++ join sep rest.
Proof. by destruct rest. Qed.

Lemma join_snoc_line (sep : str) (parts : list str) (x y : str) :
  join sep (parts ++ [x ++ sep ++ y]) = join sep (parts ++ [x; y]).
Proof.
  induction parts as [|p parts IH]; [done|].
  rewrite <- !app_comm_cons, !join_cons by (by destruct parts).
  by rewrite IH.
Qed.

(** X18: the prompt does not mark where a turn ends: a turn whose content
    holds a line break followed by [Assistant: ] gives the very prompt of
    two turns, the second one the assistant's. *)
Theorem build_prompt_line_break (turns : list Turn) (r a b : str) :
  build_prompt (turns ++ [mkTurn r (a ++ nl ++ lit "Assistant: " ++ b)])
  = build_prompt (turns ++ [mkTurn r a; mkTurn (lit "assistant") b]).
Proof.
  assert (render_turn (mkTurn r (a ++ nl ++ lit "Assistant: " ++ b))
          = render_turn (mkTurn r a) ++ nl
              ++ render_turn (mkTurn (lit "assistant") b)) as Hline.
  { unfold render_turn. cbn [role content].
    destruct (decide (lit "assistant" = lit "user")) as [Heq|_];
      [cbv in Heq; discriminate Heq|].
    change (lit "Assistant: ") with (lit "Assistant" ++ lit ": ").
    by rewrite <- !app_assoc. }
  assert (join nl (map render_turn
                     (turns ++ [mkTurn r (a ++ nl ++ lit "Assistant: " ++ b)]))
          = join nl (map render_turn
                       (turns ++ [mkTurn r a; mkTurn (lit "assistant") b])))
    as Hjoin.
  { rewrite !map_app. cbn [map]. rewrite Hline. apply join_snoc_line. }
  unfold build_prompt. cbv zeta. by rewrite Hjoin.
Qed.

(** ** The peripheral endpoints *)

Lemma length_limit_text (text : str) :
  length (limit_text text)
  = if 3000 <? length text then 2998 else length text.
Proof.
  unfold limit_text, slice. destruct (3000 <? length text) eqn:Hlong; [|done].
  apply Nat.ltb_lt in Hlong.
  rewrite length_app, length_take, length_drop.
  change (length (lit "...")) with 3. lia.
Qed.

Lemma limit_text_le (text : str) : length (limit_text text) <= 3000.
Proof.
  rewrite length_limit_text. destruct (3000 <? length text) eqn:Hlong; [lia|].
  apply Nat.ltb_ge in Hlong. exact Hlong.
Qed.

(** X19: the text kept for the synthesiser by [/llm/query/text] has at most
    3000 characters: a text within the limit is kept as it is, a longer one
    becomes its first 2995 characters and three dots, 2998 characters in
    all, and limiting twice changes nothing more. *)
Theorem limit_text_bounded (text : str) :
  length (limit_text text) <= 3000
  /\ (length text <= 3000 -> limit_text text = text)
  /\ (3000 < length text ->
      length (limit_text text) = 2998
      /\ limit_text text = take 2995 text ++ lit "...")
  /\ limit_text (limit_text text) = limit_text text.
Proof.
  split; [apply limit_text_le|]. split; [|split].
  - intros Hle. unfold limit_text.
    by destruct (Nat.ltb_spec 3000 (length text)); [lia|].
  - intros Hlong. rewrite length_limit_text. unfold limit_text, slice.
    destruct (Nat.ltb_spec 3000 (length text)); [|lia].
    split; [done|]. by rewrite drop_0.
  - pose proof (limit_text_le text) as Hle.
    unfold limit_text at 1.
    by destruct (Nat.ltb_spec 3000 (length (limit_text text))); [lia|].
Qed.

Lemma limit_text_bounded_witness :
  length (limit_text long_reply) = 2998
  /\ limit_text long_reply = take 2995 long_reply ++ lit "...".
Proof.
  apply (limit_text_bounded long_reply). vm_compute. lia.
Defined.

Section EndpointFacts.
Context {World : Type} {ext : Collaborators World}.
Variable str_of : exn -> str.
Implicit Types (st : @State World).

Lemma or_500_inv {A} (what : str) (body : M A) st st' (r : http A) :
  or_500 str_of what body st = (st', r) ->
  (exists a, body st = (st', Ok a) /\ r = Returned a)
  \/ (exists e, body st = (st', Raise e)
                /\ r = HTTPException 500 (what ++ str_of e)).
Proof.
  unfold or_500. destruct (body st) as [st'' [a|e]]; ended; eauto.
Qed.

(** The run of [/llm/query/text], by the answers of the two services. *)
Lemma llm_query_text_run (request : LLMRequest) st :
  let asked := CallGenerate (llm_model request) (llm_text request) in
  let answer :=
    generate_content (world st) (llm_model request) (llm_text request) in
  llm_query_text str_of request st =
    match match answer.2 with
          | Ok llm_response => get_text llm_response
          | Raise e => Raise e
          end with
    | Raise e =>
        (mkState (chat_histories st) answer.1 (calls st ++ [asked]),
         HTTPException 500 (lit "LLM text query failed: " ++ str_of e))
    | Ok text =>
        let response_text := limit_text (strip text) in
        let spoken := text_to_speech answer.1 response_text VOICE_ID in
        (mkState (chat_histories st) spoken.1
           (calls st ++ [asked; CallSynthesize response_text VOICE_ID]),
         match spoken.2 with
         | Ok audio_file => Returned (mkSpokenReply response_text audio_file)
         | Raise e =>
             HTTPException 500 (lit "LLM text query failed: " ++ str_of e)
         end)
    end.
Proof.
  unfold llm_query_text, or_500, bind, external, lift, ret. simpl.
  destruct (generate_content _ _ _) as [w [llm_response|e]]; simpl; [|done].
  destruct (get_text llm_response) as [text|e]; simpl; [|done].
  destruct (text_to_speech w _ VOICE_ID) as [w' [audio_file|e]]; simpl;
    by rewrite <- app_assoc.
Qed.

End EndpointFacts.

(** X20: when [/llm/query/text] returns, the model was called once and the
    synthesiser once, in this order; the text it returns is the very text
    that was synthesised, it has at most 3000 characters, and it is the
    model's text, stripped and then limited. *)
Theorem llm_query_text_returned `{ext : Collaborators World}
    (str_of : exn -> str) (request : LLMRequest) (st st' : State)
    (payload : SpokenReply) :
  llm_query_text str_of request st = (st', Returned payload) ->
  length (llm_response payload) <= 3000
  /\ calls st' =
       calls st ++ [CallGenerate (llm_model request) (llm_text request);
                    CallSynthesize (llm_response payload) VOICE_ID]
  /\ exists answer,
       (generate_content (world st) (llm_model request) (llm_text request)).2
         = Ok answer
       /\ exists text,
            get_text answer = Ok text
            /\ llm_response payload = limit_text (strip text).
Proof.
  pose proof (llm_query_text_run str_of request st) as Hrun.
  cbv zeta in Hrun. rewrite Hrun. clear Hrun.
  destruct (generate_content _ _ _) as [w [answer|e]]; simpl; [|ended].
  destruct (get_text answer) as [text|e] eqn:Htext; [|ended].
  destruct (text_to_speech w _ VOICE_ID) as [w' [audio_file|e]]; simpl; ended.
  simpl. split; [apply limit_text_le|]. split; [done|].
  exists answer. split; [done|]. by exists text.
Qed.

Lemma llm_query_text_returned_witness :
  calls
    (mkState (∅ : Store) (mkScript [] [] [])
       [CallGenerate GEMINI_MODEL (lit "Hello");
        CallSynthesize (lit "Hi") VOICE_ID])
  = [] ++ [CallGenerate GEMINI_MODEL (lit "Hello");
           CallSynthesize
             (llm_response (mkSpokenReply (lit "Hi") (lit "a.mp3")))
             VOICE_ID].
Proof.
  apply (llm_query_text_returned (ext := scripted) scripted_str
           (mkLLMRequest (lit "Hello") GEMINI_MODEL)
           (fresh (mkScript [] [Ok (says (lit " Hi "))] [Ok (lit "a.mp3")]))
           (mkState ∅ (mkScript [] [] [])
              [CallGenerate GEMINI_MODEL (lit "Hello");
               CallSynthesize (lit "Hi") VOICE_ID])
           (mkSpokenReply (lit "Hi") (lit "a.mp3"))).
  vm_compute. reflexivity.
Defined.

(** X21: when the model fails, or gives an answer whose text cannot be
    read, [/llm/query/text] does not call the synthesiser: it raises an
    [HTTPException] with status 500 whose detail is "LLM text query
    failed: " followed by the text of the exception, after the single call
    to the model. *)
Theorem llm_query_text_model_failure `{ext : Collaborators World}
    (str_of : exn -> str) (request : LLMRequest) (st : State) (e : exn) :
  let answer :=
    generate_content (world st) (llm_model request) (llm_text request) in
  match answer.2 with
  | Ok llm_response => get_text llm_response
  | Raise e => Raise e
  end = Raise e ->
  llm_query_text str_of request st =
    (mkState (chat_histories st) answer.1
       (calls st ++ [CallGenerate (llm_model request) (llm_text request)]),
     HTTPException 500 (lit "LLM text query failed: " ++ str_of e)).
Proof.
  intros answer Hfail.
  pose proof (llm_query_text_run str_of request st) as Hrun.
  cbv zeta in Hrun. fold answer in Hrun. by rewrite Hfail in Hrun.
Qed.

Lemma llm_query_text_model_failure_witness :
  llm_query_text (ext := scripted) scripted_str
    (mkLLMRequest (lit "Hello") GEMINI_MODEL)
    (fresh (mkScript [] [Raise exhausted] [Ok (lit "a.mp3")]))
  = (mkState ∅ (mkScript [] [] [Ok (lit "a.mp3")])
       [CallGenerate GEMINI_MODEL (lit "Hello")],
     HTTPException 500 (lit "LLM text query failed: no answer left")).
Proof.
  apply (llm_query_text_model_failure (ext := scripted) scripted_str
           (mkLLMRequest (lit "Hello") GEMINI_MODEL)
           (fresh (mkScript [] [Raise exhausted] [Ok (lit "a.mp3")]))
           exhausted).
  reflexivity.
Defined.

(** X22: the peripheral endpoints never touch the session store, whether
    they return or raise, and the only status they raise is 500. *)
Theorem peripheral_endpoints_leave_store `{ext : Collaborators World}
    (str_of : exn -> str) (st st' : State) :
  (forall request r,
     generate_tts str_of request st = (st', r) ->
     chat_histories st' = chat_histories st
     /\ forall code detail, r = HTTPException code detail -> code = 500)
  /\ (forall file r,
        transcribe_audio str_of file st = (st', r) ->
        chat_histories st' = chat_histories st
        /\ forall code detail, r = HTTPException code detail -> code = 500)
  /\ (forall request r,
        llm_query str_of request st = (st', r) ->
        chat_histories st' = chat_histories st
        /\ forall code detail, r = HTTPException code detail -> code = 500)
  /\ (forall request r,
        llm_query_text str_of request st = (st', r) ->
        chat_histories st' = chat_histories st
        /\ forall code detail, r = HTTPException code detail -> code = 500).
Proof.
  split; [|split; [|split]].
  - intros request r. unfold generate_tts, or_500, external.
    destruct (text_to_speech _ _ _) as [w [audio_file|e]]; ended;
      (split; [done|]); intros code detail; congruence.
  - intros file r. unfold transcribe_audio, or_500, bind, lift, external.
    destruct file as [audio_bytes|e]; [|ended; split; [done|congruence]].
    destruct (transcribe _ _) as [w [text|e]]; ended;
      (split; [done|]); intros code detail; congruence.
  - intros request r. unfold llm_query, or_500, bind, lift, external.
    destruct (generate_content _ _ _) as [w [response|e]];
      [destruct (get_text response)|]; ended;
      (split; [done|]); intros code detail; congruence.
  - intros request r.
    pose proof (llm_query_text_run str_of request st) as Hrun.
    cbv zeta in Hrun. rewrite Hrun. clear Hrun.
    destruct (generate_content _ _ _) as [w [answer|e]]; simpl;
      [destruct (get_text answer) as [text|e];
       [destruct (text_to_speech w _ VOICE_ID) as [w' [audio_file|e]]; simpl|]|];
      ended; (split; [done|]); intros code detail; congruence.
Qed.
